(** * invoice-maker: the invoice computation and numbering core

    A shallow embedding of
    - the SQL function [public.get_next_invoice_number] and the table
      constraints of [public.organizations], [public.invoices] and
      [public.invoice_items] (supabase migrations, docs/schema.sql);
    - the mutations of hooks/useInvoices.ts ([useCreateInvoice],
      [useUpdateInvoice], [useUpdateInvoiceStatus], [useDeleteInvoice]);
    - the calculator helpers and the submit handler of pages/CreateInvoice.tsx
      and pages/EditInvoice.tsx;
    - the queries [useInvoices], [useInvoiceDetail] and [useOrganization],
      the mutation [useUpdateOrganization] and the settings form of
      pages/OrganizationSettings.tsx;
    - the statistics of pages/Dashboard.tsx, the buttons of
      pages/InvoiceDetail.tsx and pages/Invoices.tsx, the texts
      components/invoice/InvoicePDF.tsx chooses and the meter of
      components/auth/PasswordStrength.tsx;
    - the signup trigger [handle_new_user] with [is_org_member],
      [has_org_role] and the policies of [user_roles] and [invoices].

    Conventions.
    - A uuid and a date are the strings the TypeScript code handles.
    - The SQL [integer] counter is a [Z] with the int4 range check written out.
    - A JavaScript [number] holding money, a quantity or a rate is an exact
      rational ([Q], compared with [==]): the calculator contract is stated
      for exact decimal arithmetic, so neither binary64 rounding nor the
      scale of a [DECIMAL(p,s)] column is part of this model. The figures the
      contract quotes are run on binary64 as well ([Binary64]).
    - Each supabase call is its own transaction: a mutation is a state
      transformer over the database returning a result, and an error raised
      by a later call keeps the effects of the earlier ones.
    - Timestamps ([created_at], [updated_at] and their trigger),
      [qr_code_data], the customers and payments tables and generated item
      ids are not modelled. Row level security is no part of the mutations;
      the policies of two tables are modelled on their own in [Auth]. *)

From Stdlib Require Import ZArith QArith List Ascii String Lia OrdersEx.
From Stdlib Require Import PrimFloat.
From stdpp Require Import base option list strings pretty gmap fin_maps.

Local Open Scope string_scope.
Local Open Scope list_scope.
Local Open Scope Z_scope.

(** ** PostgreSQL text functions used by the allocator *)

Module Pg.

(** Largest value of the SQL type [integer]. *)
Definition INT4_MAX : Z := 2147483647.

(** [n::text] for an [integer]: the decimal numeral, with a sign when
    negative. *)
Definition int4_to_text (n : Z) : string := pretty n.

(** [COALESCE(x, d)]. *)
Definition coalesce {A} (x : option A) (d : A) : A := default d x.

(** [n] copies of [s]. *)
Fixpoint string_rep (n : nat) (s : string) : string :=
  match n with
  | O => ""
  | S n' => s +:+ string_rep n' s
  end.

(** [LPAD(s, len, fill)]: [s] is first cut down to [len] characters when it is
    longer (the cut is on the right); with an empty [fill] nothing is added;
    otherwise [fill] is repeated on the left up to [len] characters. A
    negative [len] counts as zero. *)
Definition lpad (s : string) (len : Z) (fill : string) : string :=
  let len := Z.to_nat len in
  let s1 := substring 0 (Nat.min (String.length s) len) s in
  match fill with
  | "" => s1
  | _ =>
      let m := (len - String.length s1)%nat in
      substring 0 m (string_rep m fill) +:+ s1
  end.

End Pg.

(** ** Data model *)

Inductive invoice_status : Set := draft | sent | paid | overdue | cancelled.

#[global] Instance invoice_status_eq_dec : EqDecision invoice_status.
Proof. solve_decision. Defined.

(** A row of [public.organizations]; the key [id] is the key of the table. *)
Record Organization := mkOrganization {
  org_name : string;
  invoice_additional_info : option string;
  invoice_terms : option string;
  invoice_counter : option Z;
}.

(** A row of [public.invoices] (interface [Invoice]). *)
Record Invoice := mkInvoice {
  id : string;
  organization_id : string;
  customer_id : option string;
  customer_name : option string;
  customer_phone : option string;
  customer_email : option string;
  customer_address : option string;
  invoice_number : string;
  status : invoice_status;
  issue_date : string;
  due_date : string;
  subtotal : Q;
  tax_amount : Q;
  discount_amount : Q;
  total_amount : Q;
  currency : string;
  notes : option string;
  terms : option string;
  created_by : option string;
}.

(** A row of [public.invoice_items] (interface [InvoiceItem]). *)
Record InvoiceItem := mkInvoiceItem {
  invoice_id : string;
  description : string;
  quantity : Q;
  unit_price : Q;
  tax_rate : Q;
  amount : Q;
}.

(** The three tables. *)
Record Db := mkDb {
  organizations : gmap string Organization;
  invoices : gmap string Invoice;
  invoice_items : list InvoiceItem;
}.

(** ** Errors and the mutation monad *)

(** What a supabase call or a mutation can throw. *)
Inductive error : Set :=
| numeric_value_out_of_range   (* SQLSTATE 22003 *)
| not_null_violation           (* SQLSTATE 23502 *)
| foreign_key_violation        (* SQLSTATE 23503 *)
| unique_violation             (* SQLSTATE 23505 *)
| no_rows                      (* PGRST116: [.single()] on an empty result *)
| no_organization              (* Error("No organization") *)
| not_authenticated.           (* Error("Not authenticated") *)

Inductive result (A : Type) : Type :=
| Ok (a : A)
| Err (e : error).
Arguments Ok {A} a.
Arguments Err {A} e.

Definition M (A : Type) : Type := Db → result A * Db.

Definition ret {A} (a : A) : M A := λ d, (Ok a, d).
Definition throw {A} (e : error) : M A := λ d, (Err e, d).
Definition bind {A B} (m : M A) (k : A → M B) : M B :=
  λ d, match m d with
       | (Ok a, d') => k a d'
       | (Err e, d') => (Err e, d')
       end.

Notation "x ←← m ;; k" := (bind m (λ x, k))
  (at level 100, m at next level, right associativity).
Notation "m ;;; k" := (bind m (λ _, k))
  (at level 100, right associativity).

(** ** The allocator: [public.get_next_invoice_number] *)

Definition set_invoice_counter (o : Organization) (c : option Z) : Organization :=
  mkOrganization (org_name o) (invoice_additional_info o) (invoice_terms o) c.

(** [UPDATE public.organizations
     SET invoice_counter = COALESCE(invoice_counter, 0) + 1
     WHERE id = org_id RETURNING invoice_counter INTO next_num]:
    with no matching row nothing is written and [next_num] stays NULL. *)
Definition increment_invoice_counter (org_id : string) : M (option Z) :=
  λ d, match organizations d !! org_id with
       | None => (Ok None, d)
       | Some o =>
           let next_num := Pg.coalesce (invoice_counter o) 0 + 1 in
           if Pg.INT4_MAX <? next_num then (Err numeric_value_out_of_range, d)
           else (Ok (Some next_num),
                 mkDb (<[org_id := set_invoice_counter o (Some next_num)]>
                         (organizations d))
                      (invoices d) (invoice_items d))
       end.

(** ['INV-' || LPAD(next_num::text, 4, '0')]; both [||] and [LPAD] are strict,
    so a NULL [next_num] gives NULL. *)
Definition invoice_number_text (n : Z) : string :=
  "INV-" +:+ Pg.lpad (Pg.int4_to_text n) 4 "0".

Definition format_invoice_number (next_num : option Z) : option string :=
  invoice_number_text <$> next_num.

Definition get_next_invoice_number (org_id : string) : M (option string) :=
  next_num ←← increment_invoice_counter org_id ;;
  ret (format_invoice_number next_num).

(** ** The calculator of [useCreateInvoice] and [useUpdateInvoice] *)

(** An element of the [items] argument of both mutations; only the edit page
    sends an [id], which [useUpdateInvoice] does not read. *)
Record ItemInput := mkItemInput {
  item_id : option string;
  item_description : string;
  item_quantity : Q;
  item_unit_price : Q;
  item_tax_rate : Q;
}.

(** The accumulators [subtotal], [taxAmount] and the array under construction. *)
Record Totals := mkTotals {
  acc_subtotal : Q;
  acc_taxAmount : Q;
  itemsWithAmounts : list (ItemInput * Q);
}.

(** The callback of [items.map]: one line item, with its two [+=]. *)
Definition add_item (acc : Totals) (item : ItemInput) : Totals :=
  let itemSubtotal := (item_quantity item * item_unit_price item)%Q in
  let itemTax := (itemSubtotal * (item_tax_rate item / 100))%Q in
  mkTotals (acc_subtotal acc + itemSubtotal)%Q
           (acc_taxAmount acc + itemTax)%Q
           (itemsWithAmounts acc ++ [(item, (itemSubtotal + itemTax)%Q)]).

(** "Calculate totals": [subtotal] and [taxAmount] start at 0 and the items
    are visited from left to right. *)
Definition calculate_totals (items : list ItemInput) : Totals :=
  fold_left add_item items (mkTotals 0 0 []).

Definition totalAmount (t : Totals) : Q := (acc_subtotal t + acc_taxAmount t)%Q.

(** The rows sent to [invoice_items] for invoice [inv_id]. *)
Definition item_rows (inv_id : string) (t : Totals) : list InvoiceItem :=
  map (λ ia : ItemInput * Q,
         mkInvoiceItem inv_id (item_description ia.1) (item_quantity ia.1)
                       (item_unit_price ia.1) (item_tax_rate ia.1) ia.2)
      (itemsWithAmounts t).

(** ** Table operations *)

(** The JavaScript [x || null] on a string-or-nothing: the empty string is
    falsy too. *)
Definition or_null (x : option string) : option string :=
  match x with
  | Some "" => None
  | _ => x
  end.

(** The values [useCreateInvoice] sends to [.from("invoices").insert]; the
    columns it leaves out take their defaults ([discount_amount] 0,
    [currency] 'INR', [id] a generated uuid). *)
Record InvoiceInsert := mkInvoiceInsert {
  ins_organization_id : string;
  ins_customer_id : option string;
  ins_customer_name : option string;
  ins_customer_phone : option string;
  ins_customer_email : option string;
  ins_customer_address : option string;
  ins_invoice_number : option string;
  ins_issue_date : string;
  ins_due_date : string;
  ins_subtotal : Q;
  ins_tax_amount : Q;
  ins_total_amount : Q;
  ins_notes : option string;
  ins_terms : option string;
  ins_created_by : string;
  ins_status : invoice_status;
}.

(** Some invoice of organization [org] already carries number [num]:
    the index behind [UNIQUE(organization_id, invoice_number)]. *)
Definition number_taken (d : Db) (org num : string) : bool :=
  bool_decide (map_Exists
    (λ _ i, organization_id i = org ∧ invoice_number i = num) (invoices d)).

(** [INSERT INTO public.invoices ... RETURNING *] with [gen_id] the uuid
    drawn by [gen_random_uuid()]. NOT NULL is checked first, then the unique
    indexes (primary key, [UNIQUE(organization_id, invoice_number)]), then the
    foreign key to [organizations]. The customers table is not modelled, so
    a [customer_id] is taken to name an existing customer. *)
Definition new_row (gen_id : string) (v : InvoiceInsert) (num : string)
  : Invoice :=
  mkInvoice gen_id (ins_organization_id v)
    (ins_customer_id v) (ins_customer_name v)
    (ins_customer_phone v) (ins_customer_email v)
    (ins_customer_address v) num (ins_status v)
    (ins_issue_date v) (ins_due_date v)
    (ins_subtotal v) (ins_tax_amount v) 0%Q
    (ins_total_amount v) "INR"
    (ins_notes v) (ins_terms v)
    (Some (ins_created_by v)).

Definition insert_invoice (gen_id : string) (v : InvoiceInsert) : M Invoice :=
  λ d, match ins_invoice_number v with
       | None => (Err not_null_violation, d)
       | Some num =>
           if bool_decide (is_Some (invoices d !! gen_id))
              || number_taken d (ins_organization_id v) num
           then (Err unique_violation, d)
           else if bool_decide (organizations d !! ins_organization_id v = None)
           then (Err foreign_key_violation, d)
           else
             (Ok (new_row gen_id v num),
              mkDb (organizations d)
                   (<[gen_id := new_row gen_id v num]> (invoices d))
                   (invoice_items d))
       end.

(** [INSERT INTO public.invoice_items]: every row must reference an existing
    invoice. *)
Definition insert_invoice_items (rows : list InvoiceItem) : M unit :=
  λ d, if forallb (λ r, bool_decide (is_Some (invoices d !! invoice_id r))) rows
       then (Ok tt, mkDb (organizations d) (invoices d) (invoice_items d ++ rows))
       else (Err foreign_key_violation, d).

(** [DELETE FROM public.invoice_items WHERE invoice_id = inv_id]. *)
Definition delete_invoice_items (inv_id : string) : M unit :=
  λ d, (Ok tt, mkDb (organizations d) (invoices d)
                    (filter (λ r, invoice_id r ≠ inv_id) (invoice_items d))).

(** [UPDATE public.invoices SET ... WHERE id = inv_id] followed by
    [.select().single()]: an error when no row matched. *)
Definition update_invoice_row (inv_id : string) (f : Invoice → Invoice)
  : M Invoice :=
  λ d, match invoices d !! inv_id with
       | None => (Err no_rows, d)
       | Some i => (Ok (f i), mkDb (organizations d)
                                   (<[inv_id := f i]> (invoices d))
                                   (invoice_items d))
       end.

(** ** The mutations of hooks/useInvoices.ts *)

(** What the hooks [useProfile] and [useAuth] give the mutation. *)
Record Session := mkSession {
  current_organization_id : option string;
  user_id : option string;
}.

(** The [invoice] argument of [useCreateInvoice]. *)
Record NewInvoice := mkNewInvoice {
  new_customer_id : option string;
  new_customer_name : option string;
  new_customer_phone : option string;
  new_customer_email : option string;
  new_customer_address : option string;
  new_issue_date : string;
  new_due_date : string;
  new_notes : option string;
  new_terms : option string;
}.

(** The object given to [.insert] by [useCreateInvoice]. *)
Definition create_values (org uid : string) (invoice : NewInvoice)
    (invoiceNumber : option string) (t : Totals) : InvoiceInsert :=
  mkInvoiceInsert org
    (or_null (new_customer_id invoice))
    (or_null (new_customer_name invoice))
    (or_null (new_customer_phone invoice))
    (or_null (new_customer_email invoice))
    (or_null (new_customer_address invoice))
    invoiceNumber
    (new_issue_date invoice) (new_due_date invoice)
    (acc_subtotal t) (acc_taxAmount t) (totalAmount t)
    (or_null (new_notes invoice)) (or_null (new_terms invoice))
    uid draft.

(** [mutationFn] of [useCreateInvoice]; [gen_id] is the uuid the database
    draws for the new row. The number is allocated by its own remote call
    before the header is inserted, so a failed insert keeps the increment. *)
Definition useCreateInvoice (s : Session) (gen_id : string)
    (invoice : NewInvoice) (items : list ItemInput) : M Invoice :=
  match or_null (current_organization_id s) with
  | None => throw no_organization
  | Some org =>
      match or_null (user_id s) with
      | None => throw not_authenticated
      | Some uid =>
          invoiceNumber ←← get_next_invoice_number org ;;
          let t := calculate_totals items in
          invoiceData ←← insert_invoice gen_id
                           (create_values org uid invoice invoiceNumber t) ;;
          insert_invoice_items (item_rows (id invoiceData) t) ;;;
          ret invoiceData
      end
  end.

(** The [invoice] argument of [useUpdateInvoice]: every key is optional
    ([None]: the key is left out of the update), and the four nullable ones
    may be sent as null ([Some None]). *)
Record InvoiceUpdate := mkInvoiceUpdate {
  upd_customer_name : option (option string);
  upd_customer_phone : option (option string);
  upd_customer_email : option (option string);
  upd_customer_address : option (option string);
  upd_issue_date : option string;
  upd_due_date : option string;
  upd_notes : option (option string);
  upd_terms : option (option string);
}.

(** The row after [.update({...invoice, subtotal, tax_amount, total_amount})]. *)
Definition apply_update (u : InvoiceUpdate) (t : Totals) (i : Invoice) : Invoice :=
  mkInvoice (id i) (organization_id i) (customer_id i)
    (default (customer_name i) (upd_customer_name u))
    (default (customer_phone i) (upd_customer_phone u))
    (default (customer_email i) (upd_customer_email u))
    (default (customer_address i) (upd_customer_address u))
    (invoice_number i) (status i)
    (default (issue_date i) (upd_issue_date u))
    (default (due_date i) (upd_due_date u))
    (acc_subtotal t) (acc_taxAmount t) (discount_amount i) (totalAmount t)
    (currency i)
    (default (notes i) (upd_notes u))
    (default (terms i) (upd_terms u))
    (created_by i).

(** [mutationFn] of [useUpdateInvoice]. *)
Definition useUpdateInvoice (inv_id : string) (invoice : InvoiceUpdate)
    (items : list ItemInput) : M Invoice :=
  let t := calculate_totals items in
  invoiceData ←← update_invoice_row inv_id (apply_update invoice t) ;;
  delete_invoice_items inv_id ;;;
  insert_invoice_items (item_rows inv_id t) ;;;
  ret invoiceData.

Definition set_status (s : invoice_status) (i : Invoice) : Invoice :=
  mkInvoice (id i) (organization_id i) (customer_id i) (customer_name i)
    (customer_phone i) (customer_email i) (customer_address i)
    (invoice_number i) s (issue_date i) (due_date i) (subtotal i)
    (tax_amount i) (discount_amount i) (total_amount i) (currency i)
    (notes i) (terms i) (created_by i).

(** [mutationFn] of [useUpdateInvoiceStatus]: [.update({ status })]. *)
Definition useUpdateInvoiceStatus (inv_id : string) (s : invoice_status)
  : M Invoice :=
  update_invoice_row inv_id (set_status s).

(** [mutationFn] of [useDeleteInvoice]; the items go with their invoice
    ([ON DELETE CASCADE]). Deleting no row is not an error. *)
Definition useDeleteInvoice (inv_id : string) : M unit :=
  λ d, (Ok tt, mkDb (organizations d) (delete inv_id (invoices d))
                    (filter (λ r, invoice_id r ≠ inv_id) (invoice_items d))).

(** ** The pages: pages/CreateInvoice.tsx and pages/EditInvoice.tsx *)

Module Form.

(** [z.infer<typeof invoiceItemSchema>]; only the edit form carries [id]. *)
Record Item := mkItem {
  id : option string;
  description : string;
  quantity : Q;
  unitPrice : Q;
  taxRate : Q;
}.

(** [InvoiceForm] of the edit page. The create page has the same fields but
    for [invoiceNumber]. *)
Record InvoiceForm := mkInvoiceForm {
  customerName : string;
  customerPhone : option string;
  customerEmail : option string;
  customerAddress : option string;
  invoiceNumber : string;
  issueDate : string;
  dueDate : string;
  items : list Item;
  notes : option string;
  terms : option string;
}.

(** An element of [watch("items")]: while the user types, a number field may
    hold no number ([None]: undefined or NaN). *)
Record WatchItem := mkWatchItem {
  w_quantity : option Q;
  w_unitPrice : option Q;
  w_taxRate : option Q;
}.

End Form.

(** [x || 0] on a number-or-nothing (0 itself is falsy and gives 0). *)
Definition or_zero (x : option Q) : Q := default 0%Q x.

(** [calculateItemAmount] (the same in both pages). *)
Definition calculateItemAmount (item : Form.Item) : Q :=
  let subtotal := (Form.quantity item * Form.unitPrice item)%Q in
  let tax := (subtotal * (Form.taxRate item / 100))%Q in
  (subtotal + tax)%Q.

(** [calculateTotals] (the same in both pages): [{ subtotal, tax, total }]. *)
Definition calculateTotals (watchItems : option (list Form.WatchItem))
  : Q * Q * Q :=
  let '(subtotal, tax) :=
    fold_left
      (λ (acc : Q * Q) (item : Form.WatchItem),
         let itemSubtotal :=
           (or_zero (Form.w_quantity item) * or_zero (Form.w_unitPrice item))%Q in
         ((acc.1 + itemSubtotal)%Q,
          (acc.2 + itemSubtotal * (or_zero (Form.w_taxRate item) / 100))%Q))
      (default [] watchItems) (0%Q, 0%Q) in
  (subtotal, tax, (subtotal + tax)%Q).

(** [data.items.map(...)] of both submit handlers. *)
Definition form_items (with_id : bool) (l : list Form.Item) : list ItemInput :=
  map (λ item, mkItemInput (if with_id then Form.id item else None)
                           (Form.description item) (Form.quantity item)
                           (Form.unitPrice item) (Form.taxRate item)) l.

(** [try { ... } catch (error) { toast(...) }]: the handler itself never
    throws, whatever its body did before failing stays done. *)
Definition try_catch {A} (m : M A) : M unit :=
  λ d, (Ok tt, (m d).2).

Inductive submit_action : Set := save | send.

(** [onSubmit] of the create page. *)
Definition CreateInvoice_onSubmit (s : Session) (gen_id : string)
    (data : Form.InvoiceForm) (action : submit_action) : M unit :=
  try_catch (
    invoice ←← useCreateInvoice s gen_id
      (mkNewInvoice None (Some (Form.customerName data))
         (or_null (Form.customerPhone data))
         (or_null (Form.customerEmail data))
         (or_null (Form.customerAddress data))
         (Form.issueDate data) (Form.dueDate data)
         (Form.notes data) (Form.terms data))
      (form_items false (Form.items data)) ;;
    match action with
    | send => useUpdateInvoiceStatus (id invoice) sent ;;; ret tt
    | save => ret tt
    end).

(** [onSubmit] of the edit page; [invoice] is what [useInvoiceDetail] has
    loaded. The form's [invoiceNumber] is read by nothing here. *)
Definition EditInvoice_onSubmit (invoice : option Invoice)
    (data : Form.InvoiceForm) : M unit :=
  match invoice with
  | None => ret tt
  | Some invoice =>
      try_catch (
        useUpdateInvoice (id invoice)
          (mkInvoiceUpdate (Some (Some (Form.customerName data)))
             (Some <$> Form.customerPhone data)
             (Some <$> Form.customerEmail data)
             (Some <$> Form.customerAddress data)
             (Some (Form.issueDate data)) (Some (Form.dueDate data))
             (Some <$> Form.notes data) (Some <$> Form.terms data))
          (form_items true (Form.items data)))
  end.

(** ** Traces of operations *)

(** The operations a client can run against the database. *)
Inductive op : Type :=
| AllocateNext (org_id : string)
| CreateInvoice (s : Session) (gen_id : string) (invoice : NewInvoice)
                (items : list ItemInput)
| UpdateInvoice (inv_id : string) (invoice : InvoiceUpdate)
                (items : list ItemInput)
| SetInvoiceStatus (inv_id : string) (s : invoice_status)
| DeleteInvoice (inv_id : string)
| SubmitCreate (s : Session) (gen_id : string) (data : Form.InvoiceForm)
               (action : submit_action)
| SubmitEdit (invoice : option Invoice) (data : Form.InvoiceForm).

(** The database after one operation, whether it succeeded or threw. *)
Definition step (d : Db) (o : op) : Db :=
  match o with
  | AllocateNext org_id => (get_next_invoice_number org_id d).2
  | CreateInvoice s gen_id invoice items =>
      (useCreateInvoice s gen_id invoice items d).2
  | UpdateInvoice inv_id invoice items =>
      (useUpdateInvoice inv_id invoice items d).2
  | SetInvoiceStatus inv_id s => (useUpdateInvoiceStatus inv_id s d).2
  | DeleteInvoice inv_id => (useDeleteInvoice inv_id d).2
  | SubmitCreate s gen_id data action =>
      (CreateInvoice_onSubmit s gen_id data action d).2
  | SubmitEdit invoice data => (EditInvoice_onSubmit invoice data d).2
  end.

Definition exec (d : Db) (ops : list op) : Db := fold_left step ops d.

(** A sequence of allocator calls, one per listed organization, with what
    each call returned. A call that raises leaves the database as it was and
    the sequence goes on. *)
Fixpoint allocate_trace (l : list string) (d : Db)
  : list (string * result (option string)) * Db :=
  match l with
  | [] => ([], d)
  | org_id :: l' =>
      let '(r, d') := get_next_invoice_number org_id d in
      let '(rs, d'') := allocate_trace l' d' in
      ((org_id, r) :: rs, d'')
  end.

(** What the calls for [org_id] returned, in order. *)
Definition org_results (org_id : string)
    (rs : list (string * result (option string))) : list (result (option string)) :=
  snd <$> filter (λ r, r.1 = org_id) rs.

(** The operations that are one mutation; the two submit handlers run one or
    two of them. *)
Definition is_core (o : op) : Prop :=
  match o with
  | SubmitCreate _ _ _ _ | SubmitEdit _ _ => False
  | _ => True
  end.

(** The arguments the submit handlers pass to the mutations. *)
Definition create_args (data : Form.InvoiceForm) : NewInvoice :=
  mkNewInvoice None (Some (Form.customerName data))
    (or_null (Form.customerPhone data))
    (or_null (Form.customerEmail data))
    (or_null (Form.customerAddress data))
    (Form.issueDate data) (Form.dueDate data)
    (Form.notes data) (Form.terms data).

Definition edit_args (data : Form.InvoiceForm) : InvoiceUpdate :=
  mkInvoiceUpdate (Some (Some (Form.customerName data)))
    (Some <$> Form.customerPhone data)
    (Some <$> Form.customerEmail data)
    (Some <$> Form.customerAddress data)
    (Some (Form.issueDate data)) (Some (Form.dueDate data))
    (Some <$> Form.notes data) (Some <$> Form.terms data).

(** [n] calls in a row for one organization. *)
Definition allocate_many (n : nat) (org_id : string) (d : Db)
  : list (result (option string)) * Db :=
  let '(rs, d') := allocate_trace (replicate n org_id) d in (snd <$> rs, d').

(** The lexical order on texts. *)
Definition text_lt (a b : string) : Prop := String_as_OT.lt a b.

Definition text_ltb (a b : string) : bool :=
  match String_as_OT.compare a b with Lt => true | _ => false end.

(** The number text as the contract words it: "INV-" and the counter
    zero-padded to [width] 4, where padding only ever adds characters. *)
Definition zero_padded (n : Z) (width : nat) : string :=
  Pg.string_rep (width - String.length (Pg.int4_to_text n)) "0"
  +:+ Pg.int4_to_text n.

Definition spec_invoice_number_text (n : Z) : string :=
  "INV-" +:+ zero_padded n 4.

(** A list of allocator results is strictly increasing when every value is
    an invoice number and each is below all the later ones. *)
Inductive increasing : list (result (option string)) → Prop :=
| increasing_nil : increasing []
| increasing_cons a l :
    Forall (λ r, ∃ b, r = Ok (Some b) ∧ text_lt a b) l →
    increasing l →
    increasing (Ok (Some a) :: l).

(** The counter of an organization as the allocator reads it. *)
Definition counter_of (d : Db) (org_id : string) : option Z :=
  (λ o, Pg.coalesce (invoice_counter o) 0) <$> organizations d !! org_id.

(** ** The calculator on binary64

    The same arithmetic on IEEE binary64 numbers, which is what a JavaScript
    [number] is, to run the figures of the contract as the browser does. *)

Module Binary64.

Definition add_item (acc : float * float) (item : float * float * float)
  : float * float :=
  let '(quantity, unit_price, tax_rate) := item in
  let itemSubtotal := PrimFloat.mul quantity unit_price in
  let itemTax :=
    PrimFloat.mul itemSubtotal (PrimFloat.div tax_rate 100%float) in
  (PrimFloat.add acc.1 itemSubtotal, PrimFloat.add acc.2 itemTax).

(** [(subtotal, taxAmount, totalAmount)]. *)
Definition calculate_totals (items : list (float * float * float))
  : float * float * float :=
  let acc := fold_left add_item items (0%float, 0%float) in
  (acc.1, acc.2, PrimFloat.add acc.1 acc.2).

Definition calculateItemAmount (quantity unitPrice taxRate : float) : float :=
  let subtotal := PrimFloat.mul quantity unitPrice in
  let tax := PrimFloat.mul subtotal (PrimFloat.div taxRate 100%float) in
  PrimFloat.add subtotal tax.

End Binary64.

(** ** Reference quantities of the calculator contract *)

(** The sums the contract is written with. *)
Definition sumQ (l : list Q) : Q := fold_right Qplus 0%Q l.

Definition line_subtotal (item : ItemInput) : Q :=
  (item_quantity item * item_unit_price item)%Q.

Definition line_tax (item : ItemInput) : Q :=
  (item_quantity item * item_unit_price item * item_tax_rate item / 100)%Q.

(** The invariant of an item row: [amount] is the line amount of the
    contract. *)
Definition line_amount_ok (r : InvoiceItem) : Prop :=
  (amount r == quantity r * unit_price r * (1 + tax_rate r / 100))%Q.

(** The invariant of an invoice header. *)
Definition money_ok (i : Invoice) : Prop :=
  (discount_amount i == 0)%Q
  ∧ (total_amount i == subtotal i + tax_amount i - discount_amount i)%Q
  ∧ (total_amount i == subtotal i + tax_amount i)%Q.

(** No two invoices of one organization carry the same number. *)
Definition numbers_unique (m : gmap string Invoice) : Prop :=
  ∀ k1 k2 i1 i2,
    m !! k1 = Some i1 → m !! k2 = Some i2 →
    organization_id i1 = organization_id i2 →
    invoice_number i1 = invoice_number i2 → k1 = k2.

(** Invoice [inv_id] is there, with number [num], in organization [org]. *)
Definition has_number (inv_id num org : string) (d : Db) : Prop :=
  ∃ i, invoices d !! inv_id = Some i
       ∧ invoice_number i = num ∧ organization_id i = org.

(** A database with its organizations and no invoice yet. *)
Definition init (orgs : gmap string Organization) : Db := mkDb orgs ∅ [].

(** ** A small database to run the operations on *)

Definition acme : Organization := mkOrganization "Acme" None None (Some 0).
Definition globex : Organization := mkOrganization "Globex" None None None.

Definition db0 : Db :=
  mkDb (<["org-a" := acme]> (<["org-b" := globex]> ∅)) ∅ [].

Definition alice : Session := mkSession (Some "org-a") (Some "user-1").

Definition two_items : list ItemInput :=
  [ mkItemInput None "Design" 2 100 18; mkItemInput None "Hosting" 1 50 0 ].

Definition jane : NewInvoice :=
  mkNewInvoice None (Some "Jane") None None None
               "2026-01-01" "2026-01-31" None None.

(** What a user may type in the edit form, a new invoice number included. *)
Definition edit_form : Form.InvoiceForm :=
  Form.mkInvoiceForm "Jane Doe" None None None "INV-9999"
    "2026-01-01" "2026-02-15" [Form.mkItem None "Design" 3 100 18] None None.

(** [db0] after Alice has created one invoice. *)
Definition db1 : Db := (useCreateInvoice alice "inv-1" jane two_items db0).2.

(** The header row of that invoice. *)
Definition row1 : Invoice :=
  new_row "inv-1"
    (create_values "org-a" "user-1" jane (Some "INV-0001")
       (calculate_totals two_items))
    "INV-0001".

(** [db1] with that invoice marked as paid, and as cancelled. *)
Definition db_paid : Db := (useUpdateInvoiceStatus "inv-1" paid db1).2.
Definition db_cancelled : Db := (useUpdateInvoiceStatus "inv-1" cancelled db1).2.

(** An organization that has used up the four-digit numbers, with its
    thousandth invoice still on file. *)
Definition row1000 : Invoice :=
  new_row "inv-1000"
    (create_values "org-a" "user-1" jane (Some "INV-1000")
       (calculate_totals two_items))
    "INV-1000".

Definition db_9999 : Db :=
  mkDb (<["org-a" := mkOrganization "Acme" None None (Some 9999)]> ∅)
       (<["inv-1000" := row1000]> ∅) [].

(** * Further parts of the program *)

(** ** What the two invoice tables say about one invoice *)

(** The item rows of invoice [inv_id], in table order. *)
Definition rows_of (inv_id : string) (d : Db) : list InvoiceItem :=
  filter (λ r, invoice_id r = inv_id) (invoice_items d).

Definition rows_subtotal (rows : list InvoiceItem) : Q :=
  sumQ (map (λ r, quantity r * unit_price r)%Q rows).

Definition rows_tax (rows : list InvoiceItem) : Q :=
  sumQ (map (λ r, quantity r * unit_price r * tax_rate r / 100)%Q rows).

Definition rows_total (rows : list InvoiceItem) : Q :=
  sumQ (map amount rows).

(** The header carries the sums of its item rows. *)
Definition header_matches (i : Invoice) (rows : list InvoiceItem) : Prop :=
  (subtotal i == rows_subtotal rows)%Q
  ∧ (tax_amount i == rows_tax rows)%Q
  ∧ (total_amount i == rows_total rows)%Q.

(** The shape the operations keep the database in: every item row belongs
    to a stored invoice, every invoice is filed under its own id, belongs to
    a stored organization and agrees with its item rows. *)
Definition well_formed (d : Db) : Prop :=
  Forall (λ r, is_Some (invoices d !! invoice_id r)) (invoice_items d)
  ∧ map_Forall (λ k i, id i = k) (invoices d)
  ∧ map_Forall (λ _ i, is_Some (organizations d !! organization_id i))
               (invoices d)
  ∧ map_Forall (λ k i, header_matches i (rows_of k d)) (invoices d).

(** What [useCreateInvoice] needs to go through for session [s] and
    generated id [gen_id]: an organization [org] with counter [c] and a user
    [uid]. *)
Definition create_ready (s : Session) (gen_id : string) (d : Db)
    (org uid : string) (c : Z) : Prop :=
  or_null (current_organization_id s) = Some org
  ∧ or_null (user_id s) = Some uid
  ∧ counter_of d org = Some c
  ∧ c + 1 ≤ Pg.INT4_MAX
  ∧ invoices d !! gen_id = None
  ∧ number_taken d org (invoice_number_text (c + 1)) = false.

(** ** components/auth/PasswordStrength.tsx and the signup schema *)

Module PasswordStrength.

(** A JavaScript string is its sequence of UTF-16 code units; [length] and
    the regular expressions of the component (no [u] flag) work on these. *)
Definition js_string : Type := list N.

Definition of_ascii (s : string) : js_string :=
  map (λ a, N_of_ascii a) (list_ascii_of_string s).

(** The character classes [a-z], [A-Z], [0-9] and [^a-zA-Z0-9]. *)
Definition is_lower (c : N) : bool := ((97 <=? c) && (c <=? 122))%N.
Definition is_upper (c : N) : bool := ((65 <=? c) && (c <=? 90))%N.
Definition is_digit (c : N) : bool := ((48 <=? c) && (c <=? 57))%N.
Definition is_other (c : N) : bool :=
  negb (is_lower c || is_upper c || is_digit c).

(** [/[...]/.test(password)]: some code unit is in the class. *)
Definition test (class : N → bool) (password : js_string) : bool :=
  existsb class password.

(** [if (cond) score++]. *)
Definition bump (cond : bool) (score : nat) : nat :=
  if cond then S score else score.

Definition score (password : js_string) : nat :=
  let score := 0%nat in
  let score := bump (8 <=? length password)%nat score in
  let score := bump (12 <=? length password)%nat score in
  let score := bump (test is_lower password) score in
  let score := bump (test is_upper password) score in
  let score := bump (test is_digit password) score in
  let score := bump (test is_other password) score in
  score.

Inductive label : Set := Weak | Medium | Strong.

(** The object [useMemo] returns: [{ strength, label, color }]. *)
Definition meter (password : js_string) : nat * label * string :=
  let score := score password in
  if (score <=? 2)%nat then (score, Weak, "bg-destructive")
  else if (score <=? 4)%nat then (score, Medium, "bg-warning")
  else (score, Strong, "bg-success").

(** The class of the caption below the bars. *)
Definition caption_class (strength : nat) : string :=
  if (strength <=? 2)%nat then "text-destructive"
  else if (strength <=? 4)%nat then "text-warning" else "text-success".

(** What the component renders: nothing for the empty password, else the
    classes of the six bars, the class of the caption and the label. *)
Definition render (password : js_string)
  : option (list string * string * label) :=
  match password with
  | [] => None
  | _ =>
      let '(strength, label, color) := meter password in
      Some (map (λ level, if (level <=? strength)%nat then color else "bg-muted")
                [1; 2; 3; 4; 5; 6]%nat,
            caption_class strength, label)
  end.

(** [password: z.string().min(8, ...)] of the signup form. *)
Definition signup_accepts (password : js_string) : bool :=
  (8 <=? length password)%nat.

(** How many of the four character classes occur. *)
Definition classes (password : js_string) : nat :=
  bump (test is_lower password)
    (bump (test is_upper password)
       (bump (test is_digit password)
          (bump (test is_other password) 0%nat))).

Definition rank (l : label) : nat :=
  match l with Weak => 0 | Medium => 1 | Strong => 2 end%nat.

End PasswordStrength.

(** ** pages/Dashboard.tsx: the statistics *)

Module Dashboard.

(** The strings of the union type [Invoice["status"]]. *)
Definition status_name (s : invoice_status) : string :=
  match s with
  | draft => "draft" | sent => "sent" | paid => "paid"
  | overdue => "overdue" | cancelled => "cancelled"
  end.

(** The callback of both [reduce]: [sum + Number(inv.total_amount)]. *)
Definition add_total (sum : Q) (inv : Invoice) : Q :=
  (sum + total_amount inv)%Q.

Definition totalRevenue (invoices : list Invoice) : Q :=
  fold_left add_total
    (filter (λ inv, status_name (status inv) = "paid") invoices) 0%Q.

Definition outstanding (invoices : list Invoice) : Q :=
  fold_left add_total
    (filter (λ inv, status_name (status inv) ∈ ["sent"; "pending"; "overdue"])
            invoices) 0%Q.

Definition invoiceCount (invoices : list Invoice) : nat := length invoices.

Definition paidCount (invoices : list Invoice) : nat :=
  length (filter (λ inv, status_name (status inv) = "paid") invoices).

(** [invoices.slice(0, 5)]. *)
Definition recentInvoices (invoices : list Invoice) : list Invoice :=
  take 5 invoices.

End Dashboard.

(** The total of the invoices of [l] that satisfy [P]. *)
Definition total_where (P : Invoice → Prop) `{!∀ i, Decision (P i)}
    (l : list Invoice) : Q :=
  sumQ (map total_amount (filter P l)).

(** An invoice of [db1]'s kind with a given total. *)
Definition mk_total (t : Q) : Invoice :=
  mkInvoice "inv" "org-a" None None None None None "INV-0001" draft
            "2026-01-01" "2026-01-31" t 0 0 t "INR" None None None.

(** ** Signup: [handle_new_user], [is_org_member], [has_org_role]

    The tables [profiles] and [user_roles] beside the invoice tables. The
    generated primary keys of their rows are not modelled; [profiles] is
    keyed by [user_id], which is UNIQUE. *)

Module Auth.

Inductive app_role : Set := owner | admin | member.

#[global] Instance app_role_eq_dec : EqDecision app_role.
Proof. solve_decision. Defined.

Record Profile := mkProfile {
  full_name : string;
  email : string;
  profile_organization_id : option string;   (* current_organization_id *)
}.

Record UserRole := mkUserRole {
  role_user_id : string;
  role_organization_id : string;
  role : app_role;
}.

Record State := mkState {
  db : Db;
  profiles : gmap string Profile;
  user_roles : list UserRole;
}.

(** The row of [auth.users] the trigger fires for: [NEW.id], [NEW.email]
    and [NEW.raw_user_meta_data->>'full_name']. *)
Record AuthUser := mkAuthUser {
  new_id : string;
  new_email : option string;
  meta_full_name : option string;
}.

(** [split_part(s, c, 1)] for a one-character delimiter: the text before
    its first occurrence, all of [s] when there is none. *)
Fixpoint split_part_1 (c : ascii) (s : string) : string :=
  match s with
  | EmptyString => EmptyString
  | String a s' =>
      if Ascii.eqb a c then EmptyString else String a (split_part_1 c s')
  end.

Definition is_org_member (_user_id _org_id : string) (st : State) : bool :=
  bool_decide (Exists (λ r, role_user_id r = _user_id
                            ∧ role_organization_id r = _org_id)
                      (user_roles st)).

Definition has_org_role (_user_id _org_id : string) (_role : app_role)
    (st : State) : bool :=
  bool_decide (Exists (λ r, role_user_id r = _user_id
                            ∧ role_organization_id r = _org_id
                            ∧ role r = _role)
                      (user_roles st)).

(** [COALESCE(NEW.raw_user_meta_data->>'full_name',
              split_part(NEW.email, '@', 1))]. *)
Definition user_full_name (NEW : AuthUser) : option string :=
  match meta_full_name NEW with
  | Some n => Some n
  | None => split_part_1 "@"%char <$> new_email NEW
  end.

(** The trigger function, with [new_org_id] the uuid drawn for the
    organization. It runs inside the statement that inserts the user: an
    error in any of its three inserts undoes them all. The organization gets
    the column defaults, [invoice_counter] 0 among them. *)
Definition handle_new_user (new_org_id : string) (NEW : AuthUser)
    (st : State) : result unit * State :=
  match user_full_name NEW with
  | None => (Err not_null_violation, st)          (* organizations.name *)
  | Some name =>
      if bool_decide (is_Some (organizations (db st) !! new_org_id))
      then (Err unique_violation, st)
      else
        match new_email NEW with
        | None => (Err not_null_violation, st)    (* profiles.email *)
        | Some mail =>
            if bool_decide (is_Some (profiles st !! new_id NEW))
            then (Err unique_violation, st)
            else if is_org_member (new_id NEW) new_org_id st
            then (Err unique_violation, st)
            else
              (Ok tt,
               mkState
                 (mkDb (<[new_org_id :=
                            mkOrganization (name +:+ "'s Organization")
                                           None None (Some 0)]>
                          (organizations (db st)))
                       (invoices (db st)) (invoice_items (db st)))
                 (<[new_id NEW := mkProfile name mail (Some new_org_id)]>
                    (profiles st))
                 (user_roles st
                  ++ [mkUserRole (new_id NEW) new_org_id owner]))
        end
  end.

(** What [useProfile] and [useAuth] hand to the mutations for a signed-in
    user. *)
Definition session_of (uid : string) (st : State) : Session :=
  mkSession (profiles st !! uid ≫= profile_organization_id) (Some uid).

(** *** Row level security of [user_roles] and [invoices]

    [auth_uid] is [auth.uid()], NULL for a request without a session; a
    policy expression that is NULL lets nothing through. The permissive policies
    of a command are alternatives. *)

(** INSERT on [user_roles]: "Owners can manage roles" (FOR ALL, so its
    USING expression checks the new row) or "Users can insert their own
    role". *)
Definition user_roles_insert_check (auth_uid : option string) (r : UserRole)
    (st : State) : bool :=
  match auth_uid with
  | None => false
  | Some u =>
      has_org_role u (role_organization_id r) owner st
      || bool_decide (u = role_user_id r)
  end.

(** SELECT, UPDATE and DELETE on [invoices]: "Members can view invoices"
    and "Members can manage invoices" have the same expression. *)
Definition invoices_policy (auth_uid : option string) (i : Invoice)
    (st : State) : bool :=
  match auth_uid with
  | None => false
  | Some u => is_org_member u (organization_id i) st
  end.

(** The outcome of a statement under row level security. *)
Inductive rls (A : Type) : Type :=
| Permitted (a : A)
| Denied.
Arguments Permitted {A} a.
Arguments Denied {A}.

(** [INSERT INTO public.user_roles (user_id, organization_id, role)] by a
    client: the policy check, then [UNIQUE(user_id, organization_id)] and
    the foreign key to [organizations]. *)
Definition insert_user_role (auth_uid : option string) (r : UserRole)
    (st : State) : rls (result unit * State) :=
  if user_roles_insert_check auth_uid r st then
    Permitted (
      if is_org_member (role_user_id r) (role_organization_id r) st
      then (Err unique_violation, st)
      else if bool_decide (organizations (db st) !! role_organization_id r
                           = None)
      then (Err foreign_key_violation, st)
      else (Ok tt, mkState (db st) (profiles st) (user_roles st ++ [r])))
  else Denied.

Definition jane_signup : AuthUser :=
  mkAuthUser "user-9" (Some "jane@example.com") None.

(** The tables once [jane_signup] has signed up next to Acme and Globex. *)
Definition signed_up : State :=
  (handle_new_user "org-n" jane_signup (mkState db0 ∅ [])).2.

End Auth.

(** ** Organization settings: hooks/useOrganization.ts and
       pages/OrganizationSettings.tsx *)

(** [a || b] on strings that may be null or undefined: [a] when it is
    truthy (neither missing nor empty), else [b]. *)
Definition js_or (a b : option string) : option string :=
  match or_null a with
  | Some s => Some s
  | None => b
  end.

(** [queryFn] of [useOrganization]: the organization of the profile, with
    its id; [.single()] fails when the row is not there. *)
Definition useOrganization (profile_organization_id : option string) (d : Db)
  : result (option (string * Organization)) :=
  match or_null profile_organization_id with
  | None => Ok None
  | Some org_id =>
      match organizations d !! org_id with
      | None => Err no_rows
      | Some o => Ok (Some (org_id, o))
      end
  end.

(** The [updates] argument of [useUpdateOrganization], for the columns of
    [Organization] its callers send: a key may be left out ([None]) or sent
    as null ([Some None]). Keys of columns outside the model, such as
    [logo_url], change nothing here. *)
Record OrganizationUpdates := mkOrganizationUpdates {
  upd_org_name : option (option string);
  upd_invoice_additional_info : option (option string);
  upd_invoice_terms : option (option string);
}.

(** [.from("organizations").update(updates).eq("id", id).select().single()]. *)
Definition useUpdateOrganization (org_id : string)
    (updates : OrganizationUpdates) : M Organization :=
  λ d, match organizations d !! org_id with
       | None => (Err no_rows, d)
       | Some o =>
           match default (Some (org_name o)) (upd_org_name updates) with
           | None => (Err not_null_violation, d)
           | Some name =>
               let o' :=
                 mkOrganization name
                   (default (invoice_additional_info o)
                            (upd_invoice_additional_info updates))
                   (default (invoice_terms o) (upd_invoice_terms updates))
                   (invoice_counter o) in
               (Ok o', mkDb (<[org_id := o']> (organizations d))
                            (invoices d) (invoice_items d))
           end
       end.

Module OrgForm.

(** [z.infer<typeof orgSchema>], the fields of modelled columns. *)
Record t := mk {
  name : string;
  invoice_additional_info : option string;
  invoice_terms : option string;
}.

End OrgForm.

(** The [values] the settings form is filled with. *)
Definition org_form_values (organization : Organization) : OrgForm.t :=
  OrgForm.mk (org_name organization)
    (js_or (invoice_additional_info organization) (Some ""))
    (js_or (invoice_terms organization) (Some "")).

(** [onOrgSubmit]; [organization] is what [useOrganization] has loaded. An
    undefined field is not part of the request. *)
Definition onOrgSubmit (organization : option (string * Organization))
    (data : OrgForm.t) : M unit :=
  match organization with
  | None => ret tt
  | Some (org_id, _) =>
      try_catch (
        useUpdateOrganization org_id
          (mkOrganizationUpdates (Some (Some (OrgForm.name data)))
             (Some <$> OrgForm.invoice_additional_info data)
             (Some <$> OrgForm.invoice_terms data)))
  end.

(** The effect of the create page that runs when the organization has
    loaded: its default notes and terms, where set, go into the form. *)
Definition organization_effect (organization : option Organization)
    (form : Form.InvoiceForm) : Form.InvoiceForm :=
  match organization with
  | None => form
  | Some organization =>
      Form.mkInvoiceForm
        (Form.customerName form) (Form.customerPhone form)
        (Form.customerEmail form) (Form.customerAddress form)
        (Form.invoiceNumber form) (Form.issueDate form) (Form.dueDate form)
        (Form.items form)
        (match or_null (invoice_additional_info organization) with
         | Some s => Some s
         | None => Form.notes form
         end)
        (match or_null (invoice_terms organization) with
         | Some s => Some s
         | None => Form.terms form
         end)
  end.

(** ** components/invoice/InvoicePDF.tsx *)

Module InvoicePDF.

(** The props beside [invoice] and [organization], and the name of the
    joined customer ([invoice.customers?.name]). *)
Definition displayCustomerName (customerName : option string)
    (invoice : Invoice) (customers_name : option string) : option string :=
  js_or (js_or (js_or customerName (customer_name invoice)) customers_name)
        (Some "Walk-in Customer").

Definition displayNotes (invoice : Invoice) (organization : Organization)
  : option string :=
  js_or (notes invoice) (invoice_additional_info organization).

Definition displayTerms (invoice : Invoice) (organization : Organization)
  : option string :=
  js_or (terms invoice) (invoice_terms organization).

(** [{x && (<p>...</p>)}]: the text that gets printed, if any. *)
Definition printed (x : option string) : option string := or_null x.

(** [invoice.discount_amount > 0]: whether the discount line is printed. *)
Definition discount_row (invoice : Invoice) : bool :=
  negb (Qle_bool (discount_amount invoice) 0).

End InvoicePDF.

(** The [customerName] prop the detail page passes. *)
Definition InvoiceDetail_customerName (invoice : Invoice)
    (customers_name : option string) : option string :=
  js_or (customer_name invoice) customers_name.

Definition initech : Organization :=
  mkOrganization "Initech" None (Some "Net 30") (Some 7).

(** ** Loading an invoice and filling the edit form *)

(** [a || b] with a text for [b]. *)
Definition js_or_text (a : option string) (b : string) : string :=
  default b (or_null a).

(** What [useInvoiceDetail] returns: the invoice, the name and email of the
    joined customer, and the item rows (their ids are not modelled). *)
Record InvoiceDetail := mkInvoiceDetail {
  detail_invoice : Invoice;
  detail_customers : option (string * option string);
  detail_invoice_items : list InvoiceItem;
}.

(** [queryFn] of [useInvoiceDetail]. The customers table is not modelled:
    [customers] is what the join finds. The item rows are ordered by
    [created_at], which the rows of one invoice share; they are taken in
    table order here. *)
Definition useInvoiceDetail (inv_id : string)
    (customers : option (string * option string)) (d : Db)
  : result (option InvoiceDetail) :=
  match or_null (Some inv_id) with
  | None => Ok None
  | Some _ =>
      match invoices d !! inv_id with
      | None => Err no_rows
      | Some invoice =>
          Ok (Some (mkInvoiceDetail invoice customers (rows_of inv_id d)))
      end
  end.

(** The values the edit page's effect passes to [reset] once the invoice
    has loaded. *)
Definition reset_values (invoice : InvoiceDetail) : Form.InvoiceForm :=
  let i := detail_invoice invoice in
  let customers := detail_customers invoice in
  Form.mkInvoiceForm
    (js_or_text (js_or (customer_name i) (fst <$> customers)) "")
    (Some (js_or_text (customer_phone i) ""))
    (Some (js_or_text (js_or (customer_email i) (customers ≫= snd)) ""))
    (Some (js_or_text (customer_address i) ""))
    (invoice_number i) (issue_date i) (due_date i)
    (map (λ item, Form.mkItem None (description item) (quantity item)
                              (unit_price item) (tax_rate item))
         (detail_invoice_items invoice))
    (Some (js_or_text (notes i) ""))
    (Some (js_or_text (terms i) "")).

(** Two item rows that agree in everything, the amounts as numbers. *)
Definition same_row (r' r : InvoiceItem) : Prop :=
  invoice_id r' = invoice_id r
  ∧ description r' = description r
  ∧ quantity r' = quantity r
  ∧ unit_price r' = unit_price r
  ∧ tax_rate r' = tax_rate r
  ∧ (amount r' == amount r)%Q.

(** Invoice "inv-1" of [db1] as the edit page loads it, with a linked
    customer. *)
Definition loaded1 : InvoiceDetail :=
  mkInvoiceDetail row1 (Some ("Jane Doe", Some "jane@example.com"))
                  (rows_of "inv-1" db1).

(** ** The buttons of pages/InvoiceDetail.tsx and pages/Invoices.tsx *)

(** The buttons that write to an invoice: "Mark as Sent" and "Mark as Paid"
    of the detail page, "Mark as Paid" and the confirmed "Delete" of the
    list page. *)
Inductive button : Set :=
| DetailMarkAsSent | DetailMarkAsPaid | ListMarkAsPaid | ListDelete.

(** Whether the page renders the button for the invoice it shows. *)
Definition rendered (invoice : Invoice) (b : button) : bool :=
  match b with
  | DetailMarkAsSent => bool_decide (status invoice = draft)
  | DetailMarkAsPaid =>
      bool_decide (status invoice ≠ paid)
      && bool_decide (status invoice ≠ cancelled)
  | ListMarkAsPaid => bool_decide (status invoice ≠ paid)
  | ListDelete => true
  end.

Module InvoiceDetailPage.

Definition handleMarkAsSent (invoice : option Invoice) : M unit :=
  match invoice with
  | None => ret tt
  | Some invoice => try_catch (useUpdateInvoiceStatus (id invoice) sent)
  end.

Definition handleMarkAsPaid (invoice : option Invoice) : M unit :=
  match invoice with
  | None => ret tt
  | Some invoice => try_catch (useUpdateInvoiceStatus (id invoice) paid)
  end.

End InvoiceDetailPage.

Module InvoicesPage.

Definition handleMarkAsPaid (invoice : Invoice) : M unit :=
  try_catch (useUpdateInvoiceStatus (id invoice) paid).

Definition handleDelete (deletingInvoice : option Invoice) : M unit :=
  match deletingInvoice with
  | None => ret tt
  | Some invoice => try_catch (useDeleteInvoice (id invoice))
  end.

End InvoicesPage.

(** A click on button [b] of a page that shows [invoice]; a button that is
    not rendered cannot be clicked. *)
Definition click (invoice : Invoice) (b : button) : M unit :=
  if rendered invoice b then
    match b with
    | DetailMarkAsSent => InvoiceDetailPage.handleMarkAsSent (Some invoice)
    | DetailMarkAsPaid => InvoiceDetailPage.handleMarkAsPaid (Some invoice)
    | ListMarkAsPaid => InvoicesPage.handleMarkAsPaid invoice
    | ListDelete => InvoicesPage.handleDelete (Some invoice)
    end
  else ret tt.

(** ** The list of invoices the pages work on: [useInvoices] *)

(** [queryFn] of [useInvoices]: the invoices of the profile's organization.
    The source orders them by [created_at], newest first; timestamps are not
    modelled and the rows come in the order of the table here, which none of
    the dashboard's sums and counts depends on. *)
Definition useInvoices (profile_organization_id : option string) (d : Db)
  : list Invoice :=
  match or_null profile_organization_id with
  | None => []
  | Some org =>
      filter (λ i, organization_id i = org) (snd <$> map_to_list (invoices d))
  end.

(** * Properties *)

(** ** The calculator *)

Section Calculator.

Lemma fold_add_item_subtotal items acc :
  (acc_subtotal (fold_left add_item items acc)
   == acc_subtotal acc + sumQ (map line_subtotal items))%Q.
Proof.
  revert acc. induction items as [|item items IH]; intros acc; simpl.
  - ring.
  - rewrite IH. unfold line_subtotal. simpl. ring.
Qed.

Lemma fold_add_item_tax items acc :
  (acc_taxAmount (fold_left add_item items acc)
   == acc_taxAmount acc + sumQ (map line_tax items))%Q.
Proof.
  revert acc. induction items as [|item items IH]; intros acc; simpl.
  - ring.
  - rewrite IH. unfold line_tax. simpl. field.
Qed.

Lemma fold_add_item_rows items acc :
  itemsWithAmounts (fold_left add_item items acc)
  = itemsWithAmounts acc
    ++ map (λ item, (item, (line_subtotal item
                            + line_subtotal item * (item_tax_rate item / 100))%Q))
           items.
Proof.
  revert acc. induction items as [|item items IH]; intros acc; simpl.
  - by rewrite app_nil_r.
  - rewrite IH. simpl. by rewrite <- app_assoc.
Qed.

Lemma calculate_totals_subtotal items :
  (acc_subtotal (calculate_totals items) == sumQ (map line_subtotal items))%Q.
Proof. unfold calculate_totals. rewrite fold_add_item_subtotal. simpl. ring. Qed.

Lemma calculate_totals_tax items :
  (acc_taxAmount (calculate_totals items) == sumQ (map line_tax items))%Q.
Proof. unfold calculate_totals. rewrite fold_add_item_tax. simpl. ring. Qed.

Lemma calculate_totals_rows items :
  itemsWithAmounts (calculate_totals items)
  = map (λ item, (item, (line_subtotal item
                         + line_subtotal item * (item_tax_rate item / 100))%Q))
        items.
Proof. unfold calculate_totals. by rewrite fold_add_item_rows. Qed.

End Calculator.

(** ** What each database call does *)

Ltac run_monad :=
  unfold bind, ret, throw, try_catch in *; simpl in *.

Section Calls.

Implicit Types (d : Db) (org_id inv_id gen_id : string).

Lemma increment_invoice_counter_None org_id d :
  organizations d !! org_id = None →
  increment_invoice_counter org_id d = (Ok None, d).
Proof. unfold increment_invoice_counter. by intros ->. Qed.

Lemma increment_invoice_counter_Some org_id d o :
  organizations d !! org_id = Some o →
  Pg.coalesce (invoice_counter o) 0 + 1 ≤ Pg.INT4_MAX →
  increment_invoice_counter org_id d
  = (Ok (Some (Pg.coalesce (invoice_counter o) 0 + 1)),
     mkDb (<[org_id := set_invoice_counter o
                         (Some (Pg.coalesce (invoice_counter o) 0 + 1))]>
             (organizations d))
          (invoices d) (invoice_items d)).
Proof.
  unfold increment_invoice_counter. intros -> Hle.
  destruct (Z.ltb_spec Pg.INT4_MAX (Pg.coalesce (invoice_counter o) 0 + 1));
    [lia|done].
Qed.

Lemma increment_invoice_counter_overflow org_id d o :
  organizations d !! org_id = Some o →
  Pg.INT4_MAX < Pg.coalesce (invoice_counter o) 0 + 1 →
  increment_invoice_counter org_id d = (Err numeric_value_out_of_range, d).
Proof.
  unfold increment_invoice_counter. intros -> Hlt.
  destruct (Z.ltb_spec Pg.INT4_MAX (Pg.coalesce (invoice_counter o) 0 + 1));
    [done|lia].
Qed.

Lemma get_next_invoice_number_None org_id d :
  organizations d !! org_id = None →
  get_next_invoice_number org_id d = (Ok None, d).
Proof.
  intros H. unfold get_next_invoice_number, bind.
  by rewrite increment_invoice_counter_None.
Qed.

Lemma get_next_invoice_number_Some org_id d o :
  organizations d !! org_id = Some o →
  Pg.coalesce (invoice_counter o) 0 + 1 ≤ Pg.INT4_MAX →
  get_next_invoice_number org_id d
  = (Ok (format_invoice_number (Some (Pg.coalesce (invoice_counter o) 0 + 1))),
     mkDb (<[org_id := set_invoice_counter o
                         (Some (Pg.coalesce (invoice_counter o) 0 + 1))]>
             (organizations d))
          (invoices d) (invoice_items d)).
Proof.
  intros H Hle. unfold get_next_invoice_number, bind.
  by rewrite (increment_invoice_counter_Some _ _ o).
Qed.

Lemma get_next_invoice_number_overflow org_id d o :
  organizations d !! org_id = Some o →
  Pg.INT4_MAX < Pg.coalesce (invoice_counter o) 0 + 1 →
  get_next_invoice_number org_id d = (Err numeric_value_out_of_range, d).
Proof.
  intros H Hlt. unfold get_next_invoice_number, bind.
  by rewrite (increment_invoice_counter_overflow _ _ o).
Qed.

(** The allocator writes to [organizations] only. *)
Lemma get_next_invoice_number_frame org_id d :
  invoices (get_next_invoice_number org_id d).2 = invoices d
  ∧ invoice_items (get_next_invoice_number org_id d).2 = invoice_items d.
Proof.
  unfold get_next_invoice_number, increment_invoice_counter. run_monad.
  by repeat case_match; simplify_eq/=.
Qed.

(** The allocator keeps the set of organizations and touches one row. *)
Lemma get_next_invoice_number_other org_id d org' :
  org' ≠ org_id →
  organizations (get_next_invoice_number org_id d).2 !! org'
  = organizations d !! org'.
Proof.
  intros Hne.
  unfold get_next_invoice_number, increment_invoice_counter. run_monad.
  repeat case_match; simplify_eq/=; try done.
  by rewrite lookup_insert_ne.
Qed.

End Calls.

(** ** The allocator *)

Section Allocator.

Implicit Types (d : Db) (org_id : string).

(** A call reads and writes the row of its organization only. *)
Lemma get_next_invoice_number_local org_id d1 d2 :
  organizations d1 !! org_id = organizations d2 !! org_id →
  (get_next_invoice_number org_id d1).1 = (get_next_invoice_number org_id d2).1
  ∧ organizations (get_next_invoice_number org_id d1).2 !! org_id
    = organizations (get_next_invoice_number org_id d2).2 !! org_id.
Proof.
  intros H.
  unfold get_next_invoice_number, increment_invoice_counter. run_monad.
  rewrite <- H. destruct (organizations d1 !! org_id) as [o|] eqn:E; simpl.
  - destruct (Pg.INT4_MAX <? _); simpl; [by rewrite E|].
    by rewrite !lookup_insert_eq.
  - by rewrite E.
Qed.

Lemma allocate_trace_cons org_id l d :
  allocate_trace (org_id :: l) d
  = ((org_id, (get_next_invoice_number org_id d).1)
       :: (allocate_trace l (get_next_invoice_number org_id d).2).1,
     (allocate_trace l (get_next_invoice_number org_id d).2).2).
Proof.
  simpl. destruct (get_next_invoice_number org_id d) as [r d'].
  simpl. by destruct (allocate_trace l d').
Qed.

Lemma org_results_cons_eq org_id r rs :
  org_results org_id ((org_id, r) :: rs) = r :: org_results org_id rs.
Proof. unfold org_results. by rewrite filter_cons_True. Qed.

Lemma org_results_cons_ne org_id org' r rs :
  org' ≠ org_id →
  org_results org_id ((org', r) :: rs) = org_results org_id rs.
Proof. intros. unfold org_results. by rewrite filter_cons_False. Qed.

Lemma allocate_trace_local org_id l d1 d2 :
  organizations d1 !! org_id = organizations d2 !! org_id →
  org_results org_id (allocate_trace l d1).1
  = org_results org_id (allocate_trace l d2).1.
Proof.
  revert d1 d2. induction l as [|o l IH]; intros d1 d2 H; [done|].
  rewrite !allocate_trace_cons. simpl.
  destruct (decide (o = org_id)) as [->|Hne].
  - destruct (get_next_invoice_number_local org_id d1 d2 H) as [-> H'].
    rewrite !org_results_cons_eq. f_equal. by apply IH.
  - rewrite !org_results_cons_ne by done. apply IH.
    by rewrite !get_next_invoice_number_other.
Qed.

Lemma allocate_many_fst n org_id d :
  (allocate_many n org_id d).1
  = org_results org_id (allocate_trace (replicate n org_id) d).1.
Proof.
  unfold allocate_many.
  destruct (allocate_trace (replicate n org_id) d) as [rs d'] eqn:E. simpl.
  assert (Hall : Forall (λ r, r.1 = org_id) rs).
  { replace rs with (allocate_trace (replicate n org_id) d).1 by by rewrite E.
    clear E. revert d. induction n as [|n IH]; intros d; [constructor|].
    change (replicate (S n) org_id) with (org_id :: replicate n org_id).
    rewrite allocate_trace_cons. simpl. constructor; [done|apply IH]. }
  unfold org_results. clear E.
  induction Hall as [|r rs Hr _ IH]; [done|].
  rewrite filter_cons_True by done. rewrite !fmap_cons. by rewrite IH.
Qed.

Lemma allocate_many_S n org_id d :
  allocate_many (S n) org_id d
  = ((get_next_invoice_number org_id d).1
       :: (allocate_many n org_id (get_next_invoice_number org_id d).2).1,
     (allocate_many n org_id (get_next_invoice_number org_id d).2).2).
Proof.
  unfold allocate_many.
  change (replicate (S n) org_id) with (org_id :: replicate n org_id).
  rewrite allocate_trace_cons.
  by destruct (allocate_trace (replicate n org_id) _).
Qed.

(** X3. Calls for other organizations, however interleaved, change nothing
    of what the calls for [org_id] return: they are what the same number of
    calls for [org_id] alone would have returned. *)
Lemma allocate_trace_independent org_id l d :
  org_results org_id (allocate_trace l d).1
  = (allocate_many (length (filter (λ o, o = org_id) l)) org_id d).1.
Proof.
  revert d. induction l as [|o l IH]; intros d; [done|].
  rewrite allocate_trace_cons. simpl.
  destruct (decide (o = org_id)) as [->|Hne].
  - rewrite filter_cons_True by done. simpl length.
    rewrite allocate_many_S, org_results_cons_eq. simpl. by rewrite IH.
  - rewrite filter_cons_False by done.
    rewrite org_results_cons_ne by done.
    rewrite IH, !allocate_many_fst. apply allocate_trace_local.
    by apply get_next_invoice_number_other.
Qed.

Lemma counter_of_Some d org_id o :
  organizations d !! org_id = Some o →
  counter_of d org_id = Some (Pg.coalesce (invoice_counter o) 0).
Proof. unfold counter_of. by intros ->. Qed.

Lemma counter_of_inv d org_id c :
  counter_of d org_id = Some c →
  ∃ o, organizations d !! org_id = Some o ∧ Pg.coalesce (invoice_counter o) 0 = c.
Proof.
  unfold counter_of. destruct (organizations d !! org_id) as [o|]; [|done].
  intros [= <-]. by exists o.
Qed.

(** One successful call: the counter goes up by one and its new value is
    what gets formatted. *)
Lemma get_next_invoice_number_counter org_id d c :
  counter_of d org_id = Some c → c + 1 ≤ Pg.INT4_MAX →
  (get_next_invoice_number org_id d).1 = Ok (Some (invoice_number_text (c + 1)))
  ∧ counter_of (get_next_invoice_number org_id d).2 org_id = Some (c + 1).
Proof.
  intros (o & Ho & <-)%counter_of_inv Hle.
  rewrite (get_next_invoice_number_Some _ _ o) by done. split; [done|].
  unfold counter_of. simpl. by rewrite lookup_insert_eq.
Qed.

(** [n] calls in a row starting from counter [c]. *)
Lemma allocate_many_counter n org_id d c :
  counter_of d org_id = Some c → c + Z.of_nat n ≤ Pg.INT4_MAX →
  (allocate_many n org_id d).1
  = (λ k, Ok (Some (invoice_number_text (c + Z.of_nat k)))) <$> seq 1 n
  ∧ counter_of (allocate_many n org_id d).2 org_id = Some (c + Z.of_nat n).
Proof.
  revert d c. induction n as [|n IH]; intros d c Hc Hle.
  - simpl. split; [done|]. rewrite Hc. f_equal. lia.
  - rewrite allocate_many_S. simpl fst. simpl snd.
    destruct (get_next_invoice_number_counter org_id d c Hc) as [-> Hc']; [lia|].
    destruct (IH _ (c + 1) Hc') as [-> ->]; [lia|].
    split.
    + cbn [seq fmap list_fmap]. f_equal.
      rewrite <- (seq_shift n 1).
      change (map S (seq 1 n)) with (S <$> seq 1 n).
      rewrite <- list_fmap_compose.
      apply list_fmap_ext. intros _ k _. simpl. do 3 f_equal. lia.
    + f_equal. lia.
Qed.

End Allocator.

(** ** The text of an invoice number *)

Section NumberText.

Lemma length_substring_0 n s :
  (n ≤ String.length s)%nat → String.length (substring 0 n s) = n.
Proof.
  revert s. induction n as [|n IH]; intros s Hn.
  - by destruct s.
  - destruct s as [|a s]; simpl in *; [lia|]. rewrite IH; lia.
Qed.

Lemma length_string_app (s1 s2 : string) :
  String.length (s1 +:+ s2) = (String.length s1 + String.length s2)%nat.
Proof. induction s1 as [|a s1 IH]; simpl; [done|]. by rewrite IH. Qed.

(** [LPAD] of a text that already has [len] characters or more keeps its
    first [len] characters and nothing else. *)
Lemma lpad_long s len fill :
  (Z.to_nat len ≤ String.length s)%nat →
  Pg.lpad s len fill = substring 0 (Z.to_nat len) s.
Proof.
  intros Hlen. unfold Pg.lpad.
  rewrite Nat.min_r by done.
  rewrite length_substring_0 by done.
  destruct fill; [done|].
  by rewrite Nat.sub_diag.
Qed.

Lemma length_pretty_N_go_ge x s :
  (String.length s ≤ String.length (pretty_N_go x s))%nat.
Proof.
  revert s. induction (N.lt_wf_0 x) as [x _ IH]; intros s.
  destruct (decide (x = 0)%N) as [->|Hx]; [by rewrite pretty_N_go_0|].
  rewrite pretty_N_go_step by lia.
  etrans; [|apply IH; apply N.div_lt; lia]. simpl. lia.
Qed.

(** A number with more than [k] decimal digits prints to more than [k]
    characters. *)
Lemma length_pretty_N_go_pow k x s :
  (10 ^ N.of_nat k ≤ x)%N →
  (k + 1 + String.length s ≤ String.length (pretty_N_go x s))%nat.
Proof.
  revert x s. induction k as [|k IH]; intros x s Hx.
  - rewrite pretty_N_go_step by (simpl in Hx; lia).
    etrans; [|apply length_pretty_N_go_ge]. simpl. lia.
  - assert (10 * 10 ^ N.of_nat k ≤ x)%N as Hx'.
    { rewrite Nat2N.inj_succ, N.pow_succ_r' in Hx. done. }
    assert (0 < 10 ^ N.of_nat k)%N by (apply N.neq_0_lt_0, N.pow_nonzero; lia).
    rewrite pretty_N_go_step by lia.
    etrans; [|apply IH]; [simpl; lia|].
    apply N.div_le_lower_bound; lia.
Qed.

Lemma length_int4_to_text_ge n :
  9999 < n → (5 ≤ String.length (Pg.int4_to_text n))%nat.
Proof.
  intros Hn. destruct n as [|p|p]; try lia.
  unfold Pg.int4_to_text, pretty, pretty_Z, pretty, pretty_positive,
    pretty, pretty_N.
  rewrite decide_False by done.
  pose proof (length_pretty_N_go_pow 4 (N.pos p) "") as H.
  simpl in H. apply H. change (10 ^ 4)%N with 10000%N. lia.
Qed.

(** Beyond 9999 the text is cut to the four leading digits of the counter. *)
Lemma invoice_number_text_truncated n :
  9999 < n →
  invoice_number_text n = "INV-" +:+ substring 0 4 (Pg.int4_to_text n).
Proof.
  intros Hn. unfold invoice_number_text. f_equal.
  rewrite lpad_long; [done|].
  pose proof (length_int4_to_text_ge n Hn). simpl. lia.
Qed.

Lemma length_invoice_number_text_truncated n :
  9999 < n → String.length (invoice_number_text n) = 8%nat.
Proof.
  intros Hn. rewrite invoice_number_text_truncated by done.
  rewrite length_string_app, length_substring_0; [done|].
  pose proof (length_int4_to_text_ge n Hn). lia.
Qed.

Lemma invoice_number_text_not_full n :
  9999 < n → invoice_number_text n ≠ "INV-" +:+ Pg.int4_to_text n.
Proof.
  intros Hn Heq.
  pose proof (length_invoice_number_text_truncated n Hn) as H8.
  rewrite Heq, length_string_app in H8.
  pose proof (length_int4_to_text_ge n Hn). simpl in H8. lia.
Qed.

(** Up to 9999 each text is below the next one; decided by running the
    formatter on every counter of the range. *)
Lemma invoice_number_text_lt_succ k :
  1 ≤ k < 9999 →
  text_lt (invoice_number_text k) (invoice_number_text (k + 1)).
Proof.
  intros Hk.
  assert (forallb (λ k, text_ltb (invoice_number_text k)
                                 (invoice_number_text (k + 1)))
                  (seqZ 1 9998) = true) as Hall by (vm_compute; reflexivity).
  rewrite forallb_forall in Hall.
  specialize (Hall k). unfold text_ltb, text_lt, String_as_OT.lt in *.
  destruct (String_as_OT.compare _ _); try done;
    (discriminate Hall; apply list_elem_of_In, elem_of_seqZ; lia).
Qed.

Lemma invoice_number_text_lt a b :
  1 ≤ a → a < b → b ≤ 9999 →
  text_lt (invoice_number_text a) (invoice_number_text b).
Proof.
  intros Ha Hab Hb.
  assert (∀ n : nat, a + 1 + Z.of_nat n ≤ 9999 →
            text_lt (invoice_number_text a)
                    (invoice_number_text (a + 1 + Z.of_nat n))) as H.
  { induction n as [|n IH]; intros Hle.
    - replace (a + 1 + Z.of_nat 0) with (a + 1) by lia.
      apply invoice_number_text_lt_succ. lia.
    - unfold text_lt in *. etrans; [apply IH; lia|].
      replace (a + 1 + Z.of_nat (S n)) with (a + 1 + Z.of_nat n + 1) by lia.
      apply invoice_number_text_lt_succ. lia. }
  replace b with (a + 1 + Z.of_nat (Z.to_nat (b - a - 1))) by lia.
  apply H. lia.
Qed.

Lemma invoice_number_text_inj a b :
  1 ≤ a ≤ 9999 → 1 ≤ b ≤ 9999 →
  invoice_number_text a = invoice_number_text b → a = b.
Proof.
  intros Ha Hb Heq.
  destruct (Z.lt_trichotomy a b) as [Hlt|[->|Hgt]]; [|done|].
  - pose proof (invoice_number_text_lt a b) as H.
    unfold text_lt in H. rewrite Heq in H.
    destruct (irreflexivity String_as_OT.lt (invoice_number_text b)).
    apply H; lia.
  - pose proof (invoice_number_text_lt b a) as H.
    unfold text_lt in H. rewrite Heq in H.
    destruct (irreflexivity String_as_OT.lt (invoice_number_text b)).
    apply H; lia.
Qed.

End NumberText.

(** ** What each mutation does *)

Section Mutations.

Implicit Types (d : Db) (inv_id gen_id : string) (i : Invoice).

Lemma item_rows_invoice_id inv_id t :
  Forall (λ r, invoice_id r = inv_id) (item_rows inv_id t).
Proof.
  unfold item_rows. induction (itemsWithAmounts t); simpl; by constructor.
Qed.

Lemma insert_invoice_items_ok rows d :
  Forall (λ r, is_Some (invoices d !! invoice_id r)) rows →
  insert_invoice_items rows d
  = (Ok tt, mkDb (organizations d) (invoices d) (invoice_items d ++ rows)).
Proof.
  intros H. unfold insert_invoice_items.
  rewrite (proj2 (forallb_forall _ rows)); [done|].
  intros r Hr. apply bool_decide_eq_true.
  rewrite Forall_forall in H. by apply H, list_elem_of_In.
Qed.

Lemma insert_item_rows_ok inv_id t d :
  is_Some (invoices d !! inv_id) →
  insert_invoice_items (item_rows inv_id t) d
  = (Ok tt, mkDb (organizations d) (invoices d)
                 (invoice_items d ++ item_rows inv_id t)).
Proof.
  intros H. apply insert_invoice_items_ok.
  eapply Forall_impl; [apply item_rows_invoice_id|].
  by intros r ->.
Qed.

(** [useUpdateInvoice] on an invoice that exists always goes through. *)
Lemma useUpdateInvoice_Some inv_id u items d i :
  invoices d !! inv_id = Some i →
  useUpdateInvoice inv_id u items d
  = (Ok (apply_update u (calculate_totals items) i),
     mkDb (organizations d)
          (<[inv_id := apply_update u (calculate_totals items) i]> (invoices d))
          (filter (λ r, invoice_id r ≠ inv_id) (invoice_items d)
           ++ item_rows inv_id (calculate_totals items))).
Proof.
  intros Hi. unfold useUpdateInvoice, update_invoice_row, delete_invoice_items.
  run_monad. rewrite Hi. simpl.
  rewrite insert_item_rows_ok; [done|].
  simpl. rewrite lookup_insert_eq. by eexists.
Qed.

Lemma useUpdateInvoice_None inv_id u items d :
  invoices d !! inv_id = None →
  useUpdateInvoice inv_id u items d = (Err no_rows, d).
Proof.
  intros Hi. unfold useUpdateInvoice, update_invoice_row. run_monad.
  by rewrite Hi.
Qed.

Lemma useUpdateInvoiceStatus_Some inv_id s d i :
  invoices d !! inv_id = Some i →
  useUpdateInvoiceStatus inv_id s d
  = (Ok (set_status s i),
     mkDb (organizations d) (<[inv_id := set_status s i]> (invoices d))
          (invoice_items d)).
Proof. intros Hi. unfold useUpdateInvoiceStatus, update_invoice_row. by rewrite Hi. Qed.

Lemma useUpdateInvoiceStatus_None inv_id s d :
  invoices d !! inv_id = None →
  useUpdateInvoiceStatus inv_id s d = (Err no_rows, d).
Proof. intros Hi. unfold useUpdateInvoiceStatus, update_invoice_row. by rewrite Hi. Qed.

(** The header insert, case by case. *)
Lemma insert_invoice_Ok gen_id v d num :
  ins_invoice_number v = Some num →
  invoices d !! gen_id = None →
  number_taken d (ins_organization_id v) num = false →
  is_Some (organizations d !! ins_organization_id v) →
  insert_invoice gen_id v d
  = (Ok (new_row gen_id v num),
     mkDb (organizations d) (<[gen_id := new_row gen_id v num]> (invoices d))
          (invoice_items d)).
Proof.
  intros Hnum Hfresh Htaken [o Ho]. unfold insert_invoice.
  rewrite Hnum, Htaken, Hfresh, Ho.
  rewrite bool_decide_eq_false_2 by (by intros [? ?]).
  by rewrite bool_decide_eq_false_2.
Qed.

Lemma insert_invoice_inv gen_id v d r d' :
  insert_invoice gen_id v d = (r, d') →
  (∃ e, r = Err e ∧ d' = d)
  ∨ (∃ num, ins_invoice_number v = Some num
        ∧ invoices d !! gen_id = None
        ∧ number_taken d (ins_organization_id v) num = false
        ∧ is_Some (organizations d !! ins_organization_id v)
        ∧ r = Ok (new_row gen_id v num)
        ∧ d' = mkDb (organizations d)
                    (<[gen_id := new_row gen_id v num]> (invoices d))
                    (invoice_items d)).
Proof.
  unfold insert_invoice. intros H.
  destruct (ins_invoice_number v) as [num|]; [|left; eexists; by simplify_eq].
  destruct (bool_decide (is_Some (invoices d !! gen_id))) eqn:E1; simpl in H;
    [left; eexists; by simplify_eq|].
  destruct (number_taken d (ins_organization_id v) num) eqn:E2; simpl in H;
    [left; eexists; by simplify_eq|].
  destruct (bool_decide (organizations d !! ins_organization_id v = None)) eqn:E3;
    [left; eexists; by simplify_eq|].
  right. exists num. simplify_eq.
  apply bool_decide_eq_false in E1, E3.
  repeat split; try done.
  - by apply eq_None_not_Some.
  - by apply not_eq_None_Some.
Qed.

(** A run of [useCreateInvoice], case by case: it either throws, having
    written nothing but (possibly) the counter, or stores the header and
    the item rows it computed. *)
Lemma useCreateInvoice_inv s gen_id invoice items d r d' :
  useCreateInvoice s gen_id invoice items d = (r, d') →
  (∃ e, r = Err e ∧ invoices d' = invoices d
        ∧ invoice_items d' = invoice_items d)
  ∨ (∃ org uid num,
        or_null (current_organization_id s) = Some org
        ∧ or_null (user_id s) = Some uid
        ∧ (get_next_invoice_number org d).1 = Ok (Some num)
        ∧ invoices d !! gen_id = None
        ∧ number_taken d org num = false
        ∧ r = Ok (new_row gen_id
                    (create_values org uid invoice (Some num)
                       (calculate_totals items)) num)
        ∧ organizations d' = organizations (get_next_invoice_number org d).2
        ∧ invoices d'
          = <[gen_id := new_row gen_id
                          (create_values org uid invoice (Some num)
                             (calculate_totals items)) num]> (invoices d)
        ∧ invoice_items d'
          = invoice_items d ++ item_rows gen_id (calculate_totals items)).
Proof.
  unfold useCreateInvoice. intros H.
  destruct (or_null (current_organization_id s)) as [org|] eqn:Eorg;
    [|left; run_monad; simplify_eq; by eexists].
  destruct (or_null (user_id s)) as [uid|] eqn:Euid;
    [|left; run_monad; simplify_eq; by eexists].
  unfold bind at 1 in H.
  pose proof (get_next_invoice_number_frame org d) as [Hf1 Hf2].
  destruct (get_next_invoice_number org d) as [[invoiceNumber|e] d1] eqn:Egn;
    simpl in Hf1, Hf2; [|left; simplify_eq; by eexists].
  unfold bind at 1 in H.
  destruct (insert_invoice gen_id _ d1) as [r2 d2] eqn:Eins.
  apply insert_invoice_inv in Eins
    as [(e & -> & ->)|(num & Hnum & Hfresh & Htaken & Horg & -> & ->)].
  { left. simplify_eq. by eexists. }
  simpl in Hnum. subst invoiceNumber.
  unfold bind at 1 in H.
  rewrite insert_item_rows_ok in H
    by (simpl; rewrite lookup_insert_eq; by eexists).
  run_monad. simplify_eq. right. exists org, uid, num.
  rewrite Hf1 in Hfresh. rewrite Hf2.
  repeat split; try done.
  - by rewrite Egn.
  - unfold number_taken in *. by rewrite Hf1 in Htaken.
  - by rewrite Egn.
  - simpl. by rewrite Hf1.
Qed.

End Mutations.

(** ** Invariants of traces *)

Section Traces.

Implicit Types (d : Db) (o : op).

Lemma step_SubmitEdit_None d data : step d (SubmitEdit None data) = d.
Proof. done. Qed.

Lemma step_SubmitEdit_Some d i data :
  step d (SubmitEdit (Some i) data)
  = step d (UpdateInvoice (id i) (edit_args data)
                          (form_items true (Form.items data))).
Proof. done. Qed.

Lemma step_SubmitCreate_save d s gen_id data :
  step d (SubmitCreate s gen_id data save)
  = step d (CreateInvoice s gen_id (create_args data)
                          (form_items false (Form.items data))).
Proof.
  simpl. unfold CreateInvoice_onSubmit, try_catch, bind, create_args. simpl.
  by destruct (useCreateInvoice _ _ _ _ d) as [[row|e] d1].
Qed.

Lemma step_SubmitCreate_send d s gen_id data :
  step d (SubmitCreate s gen_id data send)
  = match useCreateInvoice s gen_id (create_args data)
            (form_items false (Form.items data)) d with
    | (Ok row, d1) => step d1 (SetInvoiceStatus (id row) sent)
    | (Err _, d1) => d1
    end.
Proof.
  simpl. unfold CreateInvoice_onSubmit, try_catch, bind, create_args, ret. simpl.
  destruct (useCreateInvoice _ _ _ _ d) as [[row|e] d1]; [|done].
  by destruct (useUpdateInvoiceStatus (id row) sent d1) as [[?|?] ?].
Qed.

(** A property kept by every single mutation is kept by the submit
    handlers too. *)
Lemma step_core_ind (J : Db → Prop) :
  (∀ d o, is_core o → J d → J (step d o)) →
  ∀ d o, J d → J (step d o).
Proof.
  intros Hcore d o HJ. destruct o as [| | | | |s gen_id data action|inv data];
    try by apply Hcore.
  - destruct action.
    + rewrite step_SubmitCreate_save. by apply Hcore.
    + rewrite step_SubmitCreate_send.
      pose proof (Hcore d (CreateInvoice s gen_id (create_args data)
                             (form_items false (Form.items data))) I HJ) as H1.
      simpl in H1.
      destruct (useCreateInvoice _ _ _ _ d) as [[row|e] d1]; [|done].
      by apply Hcore.
  - destruct inv as [i|]; [|done].
    rewrite step_SubmitEdit_Some. by apply Hcore.
Qed.

Lemma exec_invariant (J : Db → Prop) :
  (∀ d o, is_core o → J d → J (step d o)) →
  ∀ ops d, J d → J (exec d ops).
Proof.
  intros Hcore ops. induction ops as [|o ops IH]; intros d HJ; [done|].
  simpl. apply IH. by apply step_core_ind.
Qed.

Lemma exec_app d ops1 ops2 : exec d (ops1 ++ ops2) = exec (exec d ops1) ops2.
Proof. unfold exec. by rewrite fold_left_app. Qed.

(** How one mutation changes the table of invoices: a row is added by
    [useCreateInvoice], rewritten by [useUpdateInvoice] or
    [useUpdateInvoiceStatus], or removed by [useDeleteInvoice]. *)
Lemma step_invoices_Forall (P : string → Invoice → Prop) :
  (∀ gen_id org uid invoice num items,
     P gen_id (new_row gen_id (create_values org uid invoice (Some num)
                                 (calculate_totals items)) num)) →
  (∀ k u items i, P k i → P k (apply_update u (calculate_totals items) i)) →
  (∀ k s i, P k i → P k (set_status s i)) →
  ∀ d o, map_Forall P (invoices d) → map_Forall P (invoices (step d o)).
Proof.
  intros Hnew Hupd Hst.
  apply (step_core_ind (λ d, map_Forall P (invoices d))).
  intros d o Hcore HP. destruct o as [org|s g inv items|k u items|k s|k| |];
    try done; simpl.
  - by rewrite (proj1 (get_next_invoice_number_frame org d)).
  - destruct (useCreateInvoice s g inv items d) as [r d'] eqn:E. simpl.
    apply useCreateInvoice_inv in E
      as [(e & -> & -> & _)|(org & uid & num & _ & _ & _ & _ & _ & _ & _ & -> & _)];
      [done|].
    by apply map_Forall_insert_2.
  - destruct (invoices d !! k) as [i|] eqn:Ei.
    + rewrite (useUpdateInvoice_Some _ _ _ _ i) by done. simpl.
      apply map_Forall_insert_2; [|done]. apply Hupd. by apply HP.
    + by rewrite useUpdateInvoice_None.
  - destruct (invoices d !! k) as [i|] eqn:Ei.
    + rewrite (useUpdateInvoiceStatus_Some _ _ _ i) by done. simpl.
      apply map_Forall_insert_2; [|done]. apply Hst. by apply HP.
    + by rewrite useUpdateInvoiceStatus_None.
  - by apply map_Forall_delete.
Qed.

Lemma Forall_filter_keep {A} (P : A → Prop) (Q : A → Prop)
    `{!∀ x, Decision (Q x)} (l : list A) :
  Forall P l → Forall P (filter Q l).
Proof.
  rewrite !Forall_forall. intros HP x [_ Hx]%list_elem_of_filter. by apply HP.
Qed.

(** How one mutation changes the table of items: rows are removed, and the
    rows added are those [calculate_totals] produced. *)
Lemma step_items_Forall (P : InvoiceItem → Prop) :
  (∀ k items, Forall P (item_rows k (calculate_totals items))) →
  ∀ d o, Forall P (invoice_items d) → Forall P (invoice_items (step d o)).
Proof.
  intros Hrows.
  apply (step_core_ind (λ d, Forall P (invoice_items d))).
  intros d o Hcore HP. destruct o as [org|s g inv items|k u items|k s|k| |];
    try done; simpl.
  - by rewrite (proj2 (get_next_invoice_number_frame org d)).
  - destruct (useCreateInvoice s g inv items d) as [r d'] eqn:E. simpl.
    apply useCreateInvoice_inv in E
      as [(e & -> & _ & ->)|(org & uid & num & _ & _ & _ & _ & _ & _ & _ & _ & ->)];
      [done|].
    apply Forall_app. split; [done|apply Hrows].
  - destruct (invoices d !! k) as [i|] eqn:Ei.
    + rewrite (useUpdateInvoice_Some _ _ _ _ i) by done. simpl.
      apply Forall_app. split; [|apply Hrows].
      by apply Forall_filter_keep.
    + by rewrite useUpdateInvoice_None.
  - destruct (invoices d !! k) as [i|] eqn:Ei.
    + by rewrite (useUpdateInvoiceStatus_Some _ _ _ i).
    + by rewrite useUpdateInvoiceStatus_None.
  - by apply Forall_filter_keep.
Qed.

End Traces.

(** ** Claims on the calculator *)

Section CalculatorClaims.

Lemma useCreateInvoice_row s gen_id invoice items d row d' :
  useCreateInvoice s gen_id invoice items d = (Ok row, d') →
  invoices d' !! gen_id = Some row
  ∧ subtotal row = acc_subtotal (calculate_totals items)
  ∧ tax_amount row = acc_taxAmount (calculate_totals items)
  ∧ total_amount row = totalAmount (calculate_totals items)
  ∧ discount_amount row = 0%Q.
Proof.
  intros H. apply useCreateInvoice_inv in H
    as [(e & ? & _)|(org & uid & num & _ & _ & _ & _ & _ & Hr & _ & Hi & _)];
    [done|].
  injection Hr as ->. rewrite Hi, lookup_insert_eq. done.
Qed.

Lemma useUpdateInvoice_row inv_id u items d row d' :
  useUpdateInvoice inv_id u items d = (Ok row, d') →
  invoices d' !! inv_id = Some row
  ∧ subtotal row = acc_subtotal (calculate_totals items)
  ∧ tax_amount row = acc_taxAmount (calculate_totals items)
  ∧ total_amount row = totalAmount (calculate_totals items).
Proof.
  intros H. destruct (invoices d !! inv_id) as [i|] eqn:Ei.
  - rewrite (useUpdateInvoice_Some _ _ _ _ i) in H by done.
    injection H as <- <-. simpl. by rewrite lookup_insert_eq.
  - by rewrite useUpdateInvoice_None in H.
Qed.



Lemma item_rows_line_amount inv_id items :
  Forall line_amount_ok (item_rows inv_id (calculate_totals items)).
Proof.
  unfold item_rows. rewrite calculate_totals_rows.
  induction items as [|item items IH]; simpl; constructor; [|done].
  unfold line_amount_ok, line_subtotal. simpl. field.
Qed.


Lemma money_ok_new gen_id org uid invoice num items :
  money_ok (new_row gen_id (create_values org uid invoice (Some num)
                              (calculate_totals items)) num).
Proof.
  unfold money_ok, new_row, create_values, totalAmount. cbn.
  repeat split; ring.
Qed.

Lemma money_ok_update u items i :
  money_ok i → money_ok (apply_update u (calculate_totals items) i).
Proof.
  unfold money_ok, apply_update, totalAmount. cbn. intros (H0 & _).
  rewrite H0. repeat split; ring.
Qed.

Lemma money_ok_status s i : money_ok i → money_ok (set_status s i).
Proof. done. Qed.


End CalculatorClaims.

(** ** Claims on the invoice table *)

Section InvoiceClaims.

Implicit Types (d : Db) (inv_id gen_id : string) (i : Invoice).

Lemma has_number_core inv_id num org d o :
  is_core o → o ≠ DeleteInvoice inv_id →
  has_number inv_id num org d → has_number inv_id num org (step d o).
Proof.
  intros Hcore Hdel (i & Hi & Hn & Ho). unfold has_number.
  destruct o as [org'|s g inv items|k u items|k s|k| |]; try done; simpl.
  - rewrite (proj1 (get_next_invoice_number_frame org' d)). by exists i.
  - destruct (useCreateInvoice s g inv items d) as [r d'] eqn:E. simpl.
    apply useCreateInvoice_inv in E
      as [(e & _ & -> & _)|(? & ? & ? & _ & _ & _ & Hfresh & _ & _ & _ & -> & _)].
    + by exists i.
    + exists i. rewrite lookup_insert_ne; [done|]. by intros ->; simplify_eq.
  - destruct (invoices d !! k) as [j|] eqn:Ej.
    + rewrite (useUpdateInvoice_Some _ _ _ _ j) by done. simpl.
      destruct (decide (k = inv_id)) as [->|Hne].
      * simplify_eq. rewrite lookup_insert_eq. by eexists.
      * rewrite lookup_insert_ne by done. by exists i.
    + rewrite useUpdateInvoice_None by done. by exists i.
  - destruct (invoices d !! k) as [j|] eqn:Ej.
    + rewrite (useUpdateInvoiceStatus_Some _ _ _ j) by done. simpl.
      destruct (decide (k = inv_id)) as [->|Hne].
      * simplify_eq. rewrite lookup_insert_eq. by eexists.
      * rewrite lookup_insert_ne by done. by exists i.
    + rewrite useUpdateInvoiceStatus_None by done. by exists i.
  - rewrite lookup_delete_ne; [by exists i|]. by intros ->.
Qed.

(** No operation but the deletion of the invoice itself takes its number or
    its organization away from it. *)
Lemma has_number_step inv_id num org d o :
  o ≠ DeleteInvoice inv_id →
  has_number inv_id num org d → has_number inv_id num org (step d o).
Proof.
  intros Hdel H.
  destruct o as [| | | | |s g data action|loaded data];
    try by apply has_number_core.
  - destruct action.
    + rewrite step_SubmitCreate_save. by apply has_number_core.
    + rewrite step_SubmitCreate_send.
      pose proof (has_number_core inv_id num org d
                    (CreateInvoice s g (create_args data)
                       (form_items false (Form.items data))) I
                    ltac:(done) H) as H1.
      simpl in H1.
      destruct (useCreateInvoice _ _ _ _ d) as [[row|e] d1]; [|done].
      by apply has_number_core.
  - destruct loaded as [j|]; [|done].
    rewrite step_SubmitEdit_Some. by apply has_number_core.
Qed.

Lemma has_number_exec inv_id num org ops d :
  Forall (λ o, o ≠ DeleteInvoice inv_id) ops →
  has_number inv_id num org d → has_number inv_id num org (exec d ops).
Proof.
  intros Hops. revert d. induction Hops as [|o ops Ho _ IH]; intros d H; [done|].
  simpl. apply IH. by apply has_number_step.
Qed.

(** C8. On an existing invoice [useUpdateInvoice] always succeeds and
    returns and stores a row with the same [invoice_number] and
    [organization_id]; the edit page's submit handler stores that same
    number whatever the form's invoice-number field holds; and no sequence of
    operations that does not delete the invoice ever changes either field. *)
Theorem invoice_number_immutable d inv_id i :
  invoices d !! inv_id = Some i →
  (∀ u items, ∃ i' d',
      useUpdateInvoice inv_id u items d = (Ok i', d')
      ∧ invoices d' !! inv_id = Some i'
      ∧ invoice_number i' = invoice_number i
      ∧ organization_id i' = organization_id i)
  ∧ (∀ loaded data,
      has_number inv_id (invoice_number i) (organization_id i)
                 (EditInvoice_onSubmit loaded data d).2)
  ∧ (∀ ops, Forall (λ o, o ≠ DeleteInvoice inv_id) ops →
      has_number inv_id (invoice_number i) (organization_id i) (exec d ops)).
Proof.
  intros Hi. split; [|split].
  - intros u items. rewrite (useUpdateInvoice_Some _ _ _ _ i) by done.
    eexists _, _. split; [done|]. simpl. by rewrite lookup_insert_eq.
  - intros loaded data.
    by apply (has_number_step inv_id _ _ d (SubmitEdit loaded data));
      [|exists i].
  - intros ops Hops. apply has_number_exec; [done|]. by exists i.
Qed.

End InvoiceClaims.

Section InvoiceWitnesses.

Lemma db1_inv1 : invoices db1 !! "inv-1" = Some row1.
Proof. vm_compute. reflexivity. Qed.

(** Invoice "inv-1" of [db1] keeps number INV-0001 through an update, a
    status change, an edit submitted with "INV-9999" typed in the form, and
    the creation and deletion of another invoice. *)
Lemma invoice_number_immutable_witness :
  has_number "inv-1" "INV-0001" "org-a"
    (exec db1
       [ UpdateInvoice "inv-1"
           (mkInvoiceUpdate None None None None None None None None) two_items;
         SetInvoiceStatus "inv-1" paid;
         SubmitEdit (Some row1) edit_form;
         CreateInvoice alice "inv-2" jane two_items;
         DeleteInvoice "inv-2" ]).
Proof.
  destruct (invoice_number_immutable db1 "inv-1" row1 db1_inv1) as (_ & _ & H).
  apply H. repeat (constructor; [discriminate|]). constructor.
Defined.

(** The figures of C2 and C6 on binary64: the roundings that occur
    (18/100, 200 * 0.18) land on 36, 236 and 286 exactly. *)
Lemma binary64_figures :
  Binary64.calculateItemAmount 2 100 18 = 236%float
  ∧ Binary64.calculate_totals
      [ (2%float, 100%float, 18%float); (1%float, 50%float, 0%float) ]
    = (250%float, 36%float, 286%float).
Proof. split; reflexivity. Qed.



End InvoiceWitnesses.

(** ** Claims on uniqueness, status changes and unknown organizations *)

Section TableClaims.

Implicit Types (d : Db) (inv_id gen_id : string) (i : Invoice).

Lemma number_taken_true d k i :
  invoices d !! k = Some i →
  number_taken d (organization_id i) (invoice_number i) = true.
Proof.
  intros Hi. unfold number_taken. apply bool_decide_eq_true.
  by exists k, i.
Qed.

Lemma number_taken_false d org num k i :
  number_taken d org num = false →
  invoices d !! k = Some i →
  ¬ (organization_id i = org ∧ invoice_number i = num).
Proof.
  unfold number_taken. intros Hf%bool_decide_eq_false Hi Hboth.
  apply Hf. by exists k, i.
Qed.

(** C9. A row whose organization already has an invoice with the same
    number is not stored: [insert_invoice] raises the unique violation
    (SQLSTATE 23505, the conflict error) and leaves the database as it was;
    so does [useCreateInvoice] whenever the allocator hands it a number that
    is taken, apart from the counter increment it has already made. *)
Theorem unique_invoice_number d k i :
  invoices d !! k = Some i →
  (∀ gen_id v,
     ins_organization_id v = organization_id i →
     ins_invoice_number v = Some (invoice_number i) →
     insert_invoice gen_id v d = (Err unique_violation, d))
  ∧ (∀ s gen_id invoice items,
       or_null (current_organization_id s) = Some (organization_id i) →
       is_Some (or_null (user_id s)) →
       (get_next_invoice_number (organization_id i) d).1
       = Ok (Some (invoice_number i)) →
       (useCreateInvoice s gen_id invoice items d).1 = Err unique_violation
       ∧ invoices (useCreateInvoice s gen_id invoice items d).2 = invoices d
       ∧ invoice_items (useCreateInvoice s gen_id invoice items d).2
         = invoice_items d).
Proof.
  intros Hi. split.
  - intros gen_id v Horg Hnum. unfold insert_invoice.
    rewrite Hnum, Horg, (number_taken_true d k i Hi).
    by rewrite orb_true_r.
  - intros s gen_id invoice items Horg [uid Huid] Hnext.
    pose proof (get_next_invoice_number_frame (organization_id i) d) as [Hf1 Hf2].
    assert (useCreateInvoice s gen_id invoice items d
            = (Err unique_violation,
               (get_next_invoice_number (organization_id i) d).2)) as ->.
    { unfold useCreateInvoice. rewrite Horg, Huid. unfold bind at 1.
      destruct (get_next_invoice_number (organization_id i) d) as [r d1].
      simpl in Hnext, Hf1, Hf2. subst r. unfold bind at 1.
      unfold insert_invoice. simpl.
      assert (number_taken d1 (organization_id i) (invoice_number i) = true)
        as ->.
      { apply (number_taken_true d1 k i). by rewrite Hf1. }
      by rewrite orb_true_r. }
    done.
Qed.

(** In [db_9999] the allocator hands out "INV-1000" once more; the insert of
    the new header is refused and nothing is stored. *)
Lemma unique_invoice_number_witness :
  insert_invoice "inv-x"
    (create_values "org-a" "user-1" jane (Some "INV-1000")
       (calculate_totals two_items)) db_9999
  = (Err unique_violation, db_9999)
  ∧ (useCreateInvoice alice "inv-10000" jane two_items db_9999).1
    = Err unique_violation
  ∧ invoices (useCreateInvoice alice "inv-10000" jane two_items db_9999).2
    = invoices db_9999.
Proof.
  assert (invoices db_9999 !! "inv-1000" = Some row1000) as Hi
    by (vm_compute; reflexivity).
  destruct (unique_invoice_number db_9999 "inv-1000" row1000 Hi) as [H1 H2].
  split.
  - exact (H1 "inv-x" _ eq_refl eq_refl).
  - assert ((get_next_invoice_number (organization_id row1000) db_9999).1
            = Ok (Some (invoice_number row1000))) as Hnext
      by (vm_compute; reflexivity).
    destruct (H2 alice "inv-10000" jane two_items eq_refl
                 (ex_intro _ "user-1" eq_refl) Hnext) as (Ha & Hb & _).
    exact (conj Ha Hb).
Defined.

(** C5 (as the code has it). [useUpdateInvoiceStatus] on an existing invoice
    is accepted whatever the current status is, paid and cancelled included,
    and whatever the requested one is: it returns and stores the invoice with
    the requested status and every other column as before, and touches no
    other invoice. On an unknown id it throws and changes nothing. *)
Theorem set_status_unguarded d inv_id i s :
  invoices d !! inv_id = Some i →
  useUpdateInvoiceStatus inv_id s d
  = (Ok (set_status s i),
     mkDb (organizations d) (<[inv_id := set_status s i]> (invoices d))
          (invoice_items d))
  ∧ status (set_status s i) = s
  ∧ invoice_number (set_status s i) = invoice_number i
  ∧ organization_id (set_status s i) = organization_id i
  ∧ (∀ inv_id' s', invoices d !! inv_id' = None →
       useUpdateInvoiceStatus inv_id' s' d = (Err no_rows, d)).
Proof.
  intros Hi. split; [by apply useUpdateInvoiceStatus_Some|].
  repeat split; try done.
  intros k s' Hk. by apply useUpdateInvoiceStatus_None.
Qed.

(** A paid invoice is set back to draft. *)
Lemma set_status_unguarded_witness :
  (status <$> invoices db_paid !! "inv-1") = Some paid
  ∧ (status <$> invoices (useUpdateInvoiceStatus "inv-1" draft db_paid).2
                !! "inv-1") = Some draft.
Proof.
  assert (∃ i, invoices db_paid !! "inv-1" = Some i ∧ status i = paid)
    as (i & Hi & Hs) by (vm_compute; eexists; split; reflexivity).
  destruct (set_status_unguarded db_paid "inv-1" i draft Hi) as (-> & Hd & _).
  rewrite Hi. simpl. rewrite lookup_insert_eq. simpl. by rewrite Hs.
Defined.

(** C5, refuted as stated: a paid invoice goes back to draft and a cancelled
    one becomes paid; both calls succeed. *)
Lemma terminal_status_changed :
  (status <$> invoices db_paid !! "inv-1") = Some paid
  ∧ (∃ i, (useUpdateInvoiceStatus "inv-1" draft db_paid).1 = Ok i
          ∧ status i = draft)
  ∧ (status <$> invoices (useUpdateInvoiceStatus "inv-1" draft db_paid).2
                !! "inv-1") = Some draft
  ∧ (status <$> invoices db_cancelled !! "inv-1") = Some cancelled
  ∧ (∃ i, (useUpdateInvoiceStatus "inv-1" paid db_cancelled).1 = Ok i
          ∧ status i = paid)
  ∧ (status <$> invoices (useUpdateInvoiceStatus "inv-1" paid db_cancelled).2
                !! "inv-1") = Some paid.
Proof.
  vm_compute. repeat split; try reflexivity; eexists; split; reflexivity.
Qed.

(** C4 (as the code has it). For an id that names no organization
    [get_next_invoice_number] raises nothing: the UPDATE matches no row, the
    function returns NULL and the database is as before. [useCreateInvoice]
    then throws at the header insert, on the NOT NULL constraint of
    [invoice_number], and stores nothing. *)
Theorem unknown_organization_gets_null d org_id :
  organizations d !! org_id = None →
  get_next_invoice_number org_id d = (Ok None, d)
  ∧ (∀ s gen_id invoice items,
       or_null (current_organization_id s) = Some org_id →
       is_Some (or_null (user_id s)) →
       useCreateInvoice s gen_id invoice items d = (Err not_null_violation, d)).
Proof.
  intros Horg. split; [by apply get_next_invoice_number_None|].
  intros s gen_id invoice items Hs [uid Huid].
  unfold useCreateInvoice. rewrite Hs, Huid. unfold bind at 1.
  by rewrite get_next_invoice_number_None.
Qed.

Lemma unknown_organization_gets_null_witness :
  get_next_invoice_number "org-x" db0 = (Ok None, db0)
  ∧ useCreateInvoice (mkSession (Some "org-x") (Some "user-1")) "inv-1"
                     jane two_items db0
    = (Err not_null_violation, db0).
Proof.
  destruct (unknown_organization_gets_null db0 "org-x") as [H1 H2];
    [reflexivity|].
  split; [done|]. apply H2; [reflexivity|by eexists].
Defined.

(** C4, refuted as stated: "org-x" is no organization of [db0], and the call
    returns (NULL) instead of failing. *)
Lemma unknown_organization_no_error :
  organizations db0 !! "org-x" = None
  ∧ get_next_invoice_number "org-x" db0 = (Ok None, db0)
  ∧ ∀ e, (get_next_invoice_number "org-x" db0).1 ≠ Err e.
Proof. repeat split; done. Qed.

End TableClaims.

(** ** Claims on the allocator *)

Section AllocatorClaims.

Implicit Types (d : Db) (org_id : string).

Lemma substring_all s : substring 0 (String.length s) s = s.
Proof. induction s as [|a s IH]; simpl; [done|]. by rewrite IH. Qed.

Lemma length_string_rep_0 m : String.length (Pg.string_rep m "0") = m.
Proof.
  induction m as [|m IH]; [done|].
  change (Pg.string_rep (S m) "0") with ("0" +:+ Pg.string_rep m "0").
  by rewrite length_string_app, IH.
Qed.

(** [LPAD] of a text shorter than [len] puts zeros in front of it. *)
Lemma lpad_short s len :
  (String.length s ≤ Z.to_nat len)%nat →
  Pg.lpad s len "0"
  = Pg.string_rep (Z.to_nat len - String.length s) "0" +:+ s.
Proof.
  intros Hlen. unfold Pg.lpad.
  rewrite Nat.min_l by done. rewrite substring_all.
  f_equal.
  rewrite <- (length_string_rep_0 (Z.to_nat len - String.length s)) at 1.
  apply substring_all.
Qed.

(** The formatter agrees with the contract's wording exactly on the
    counters whose numeral has at most four characters. *)
Lemma invoice_number_text_spec n :
  (String.length (Pg.int4_to_text n) ≤ 4)%nat →
  invoice_number_text n = spec_invoice_number_text n.
Proof.
  intros Hlen. unfold invoice_number_text, spec_invoice_number_text, zero_padded.
  by rewrite lpad_short.
Qed.

Lemma spec_invoice_number_text_long n :
  9999 < n → spec_invoice_number_text n = "INV-" +:+ Pg.int4_to_text n.
Proof.
  intros Hn. unfold spec_invoice_number_text, zero_padded.
  pose proof (length_int4_to_text_ge n Hn).
  by replace (4 - String.length (Pg.int4_to_text n))%nat with 0%nat by lia.
Qed.

Lemma invoice_number_text_not_spec n :
  9999 < n → invoice_number_text n ≠ spec_invoice_number_text n.
Proof.
  intros Hn. rewrite spec_invoice_number_text_long by done.
  by apply invoice_number_text_not_full.
Qed.

Lemma increasing_lookup l i j a b :
  increasing l → (i < j)%nat →
  l !! i = Some (Ok (Some a)) → l !! j = Some (Ok (Some b)) → text_lt a b.
Proof.
  intros Hinc. revert i j. induction Hinc as [|x l Hall _ IH]; intros i j Hij Hi Hj.
  - done.
  - destruct j as [|j]; [lia|]. simpl in Hj.
    destruct i as [|i].
    + simpl in Hi. simplify_eq.
      rewrite Forall_forall in Hall.
      destruct (Hall (Ok (Some b))) as (b' & Hb & Hlt).
      { by eapply list_elem_of_lookup_2. }
      by simplify_eq.
    + simpl in Hi. eapply IH; [|done..]. lia.
Qed.

Lemma text_lt_irrefl a : ¬ text_lt a a.
Proof. apply (irreflexivity String_as_OT.lt). Qed.

Lemma increasing_NoDup l : increasing l → NoDup l.
Proof.
  induction 1 as [|a l Hall _ IH]; constructor; [|done].
  intros Hin. rewrite Forall_forall in Hall.
  destruct (Hall _ Hin) as (b & Hb & Hlt). simplify_eq.
  by apply text_lt_irrefl in Hlt.
Qed.

Lemma increasing_texts start n :
  (1 ≤ start)%nat → Z.of_nat start + Z.of_nat n ≤ 10000 →
  increasing ((λ k, Ok (Some (invoice_number_text (Z.of_nat k))))
                <$> seq start n).
Proof.
  revert start. induction n as [|n IH]; intros start H1 H2; [constructor|].
  cbn [seq fmap list_fmap]. constructor; [|apply IH; lia].
  apply Forall_fmap, Forall_forall. intros k [Hk1 Hk2]%elem_of_seq.
  simpl. eexists. split; [done|].
  apply invoice_number_text_lt; lia.
Qed.

Lemma length_int4_to_text_le k :
  0 ≤ k ≤ 9999 → (String.length (Pg.int4_to_text k) ≤ 4)%nat.
Proof.
  intros Hk.
  assert (forallb (λ k, (String.length (Pg.int4_to_text k) <=? 4)%nat)
                  (seqZ 0 10000) = true) as Hall by (vm_compute; reflexivity).
  rewrite forallb_forall in Hall.
  apply Nat.leb_le, Hall, list_elem_of_In, elem_of_seqZ. lia.
Qed.

(** Every operation leaves the table of organizations as it was or as one
    call of the allocator leaves it. *)
Lemma step_organizations d o :
  organizations (step d o) = organizations d
  ∨ ∃ org', organizations (step d o)
            = organizations (get_next_invoice_number org' d).2.
Proof.
  assert (∀ s g inv items,
            organizations (useCreateInvoice s g inv items d).2 = organizations d
            ∨ ∃ org', organizations (useCreateInvoice s g inv items d).2
                      = organizations (get_next_invoice_number org' d).2)
    as Hcreate.
  { intros s g inv items.
    destruct (useCreateInvoice s g inv items d) as [r d'] eqn:E. simpl.
    unfold useCreateInvoice in E.
    destruct (or_null (current_organization_id s)) as [org|];
      [|left; run_monad; by simplify_eq].
    destruct (or_null (user_id s)) as [uid|];
      [|left; run_monad; by simplify_eq].
    right. exists org. unfold bind at 1 in E.
    destruct (get_next_invoice_number org d) as [[num|e] d1];
      [|by simplify_eq].
    unfold bind at 1 in E.
    destruct (insert_invoice g _ d1) as [r2 d2] eqn:Eins.
    apply insert_invoice_inv in Eins
      as [(e & -> & ->)|(n & _ & _ & _ & _ & -> & ->)]; [by simplify_eq|].
    unfold bind at 1 in E.
    rewrite insert_item_rows_ok in E
      by (simpl; rewrite lookup_insert_eq; by eexists).
    run_monad. by simplify_eq. }
  assert (∀ k u items,
            organizations (useUpdateInvoice k u items d).2 = organizations d)
    as Hupdate.
  { intros k u items. destruct (invoices d !! k) as [i|] eqn:Ei.
    - by rewrite (useUpdateInvoice_Some _ _ _ _ i).
    - by rewrite useUpdateInvoice_None. }
  assert (∀ d1 k s,
            organizations (useUpdateInvoiceStatus k s d1).2 = organizations d1)
    as Hstatus.
  { intros d1 k s. destruct (invoices d1 !! k) as [i|] eqn:Ei.
    - by rewrite (useUpdateInvoiceStatus_Some _ _ _ i).
    - by rewrite useUpdateInvoiceStatus_None. }
  destruct o as [org|s g inv items|k u items|k s|k|s g data action|loaded data].
  - right. by exists org.
  - apply Hcreate.
  - left. apply Hupdate.
  - left. apply Hstatus.
  - by left.
  - destruct action.
    + rewrite step_SubmitCreate_save. apply Hcreate.
    + rewrite step_SubmitCreate_send.
      specialize (Hcreate s g (create_args data)
                          (form_items false (Form.items data))).
      destruct (useCreateInvoice _ _ _ _ d) as [[row|e] d1]; [|done].
      simpl in *. by rewrite Hstatus.
  - destruct loaded as [i|]; [|by left].
    rewrite step_SubmitEdit_Some. left. apply Hupdate.
Qed.

Lemma get_next_invoice_number_counter_cases org' d org_id c :
  counter_of d org_id = Some c →
  counter_of (get_next_invoice_number org' d).2 org_id = Some c
  ∨ (org' = org_id ∧ c + 1 ≤ Pg.INT4_MAX
     ∧ counter_of (get_next_invoice_number org' d).2 org_id = Some (c + 1)).
Proof.
  intros Hc. destruct (decide (org' = org_id)) as [->|Hne].
  - destruct (Z_le_gt_dec (c + 1) Pg.INT4_MAX) as [Hle|Hgt].
    + right. by destruct (get_next_invoice_number_counter org_id d c Hc Hle).
    + left. apply counter_of_inv in Hc as (o & Ho & <-).
      rewrite (get_next_invoice_number_overflow _ _ o); [|done|lia].
      by apply counter_of_Some.
  - left. unfold counter_of in *.
    by rewrite get_next_invoice_number_other.
Qed.

Lemma step_counter d o org_id c :
  counter_of d org_id = Some c →
  counter_of (step d o) org_id = Some c
  ∨ counter_of (step d o) org_id = Some (c + 1).
Proof.
  intros Hc. unfold counter_of at 1 2.
  destruct (step_organizations d o) as [->|[org' ->]]; [by left|].
  destruct (get_next_invoice_number_counter_cases org' d org_id c Hc)
    as [?|(_ & _ & ?)]; [by left|by right].
Qed.

Lemma exec_counter ops d org_id c :
  counter_of d org_id = Some c →
  ∃ c', counter_of (exec d ops) org_id = Some c' ∧ c ≤ c'.
Proof.
  revert d c. induction ops as [|o ops IH]; intros d c Hc.
  - exists c. split; [done|lia].
  - simpl. destruct (step_counter d o org_id c Hc) as [H|H];
      destruct (IH _ _ H) as (c' & Hc' & Hle); exists c'; split; try done; lia.
Qed.

(** X1. Starting from counter 0, up to 9999 calls in a row return "INV-" and
    the counter zero-padded to four digits, 1, 2, ... in order: the values
    are strictly increasing, hence distinct, and the counter ends at the
    number of calls. *)
Theorem sequential_numbers n org_id d :
  counter_of d org_id = Some 0 → Z.of_nat n ≤ 9999 →
  (allocate_many n org_id d).1
  = (λ k, Ok (Some (spec_invoice_number_text (Z.of_nat k)))) <$> seq 1 n
  ∧ increasing (allocate_many n org_id d).1
  ∧ NoDup (allocate_many n org_id d).1
  ∧ counter_of (allocate_many n org_id d).2 org_id = Some (Z.of_nat n).
Proof.
  intros Hc Hn.
  destruct (allocate_many_counter n org_id d 0 Hc) as [Hres Hcnt].
  { unfold Pg.INT4_MAX. lia. }
  assert (increasing (allocate_many n org_id d).1) as Hinc.
  { rewrite Hres. apply increasing_texts; lia. }
  split; [|split; [done|split; [by apply increasing_NoDup|done]]].
  rewrite Hres. apply list_fmap_ext. intros j k Hk%lookup_seq. simpl.
  do 2 f_equal. apply invoice_number_text_spec, length_int4_to_text_le. lia.
Qed.

(** Three calls for "org-a" of [db0]. *)
Lemma sequential_numbers_witness :
  (allocate_many 3 "org-a" db0).1
  = [Ok (Some "INV-0001"); Ok (Some "INV-0002"); Ok (Some "INV-0003")]
  ∧ NoDup (allocate_many 3 "org-a" db0).1
  ∧ counter_of (allocate_many 3 "org-a" db0).2 "org-a" = Some 3.
Proof.
  destruct (sequential_numbers 3 "org-a" db0 eq_refl) as (Hr & _ & Hnd & Hc);
    [lia|].
  split; [|exact (conj Hnd Hc)].
  rewrite Hr. vm_compute. reflexivity.
Defined.

(** X2. The counter of an organization never goes down: an operation leaves it
    as it is or adds one; only the allocator writes to [organizations], the
    update, status and delete mutations leave the table untouched; and a
    successful allocation adds exactly one. *)
Theorem invoice_counter_monotone d org_id c :
  counter_of d org_id = Some c →
  (∀ o, counter_of (step d o) org_id = Some c
        ∨ counter_of (step d o) org_id = Some (c + 1))
  ∧ (∀ ops, ∃ c', counter_of (exec d ops) org_id = Some c' ∧ c ≤ c')
  ∧ (∀ inv_id, organizations (useDeleteInvoice inv_id d).2 = organizations d)
  ∧ (∀ inv_id u items,
       organizations (step d (UpdateInvoice inv_id u items)) = organizations d)
  ∧ (∀ inv_id s,
       organizations (step d (SetInvoiceStatus inv_id s)) = organizations d)
  ∧ (c + 1 ≤ Pg.INT4_MAX →
     counter_of (get_next_invoice_number org_id d).2 org_id = Some (c + 1)).
Proof.
  intros Hc. repeat split.
  - intros o. by apply step_counter.
  - intros ops. by apply exec_counter.
  - intros k u items. simpl. destruct (invoices d !! k) as [i|] eqn:Ei.
    + by rewrite (useUpdateInvoice_Some _ _ _ _ i).
    + by rewrite useUpdateInvoice_None.
  - intros k s. simpl. destruct (invoices d !! k) as [i|] eqn:Ei.
    + by rewrite (useUpdateInvoiceStatus_Some _ _ _ i).
    + by rewrite useUpdateInvoiceStatus_None.
  - intros Hle. by destruct (get_next_invoice_number_counter org_id d c Hc Hle).
Qed.

(** In [db1] the counter of "org-a" is 1; after an update, a deletion and
    one more creation it is 2. *)
Lemma invoice_counter_monotone_witness :
  ∃ c', counter_of
          (exec db1 [ SetInvoiceStatus "inv-1" paid; DeleteInvoice "inv-1";
                      CreateInvoice alice "inv-2" jane two_items ]) "org-a"
        = Some c' ∧ 1 ≤ c'.
Proof.
  assert (counter_of db1 "org-a" = Some 1) as Hc by (vm_compute; reflexivity).
  destruct (invoice_counter_monotone db1 "org-a" 1 Hc) as (_ & H & _).
  apply H.
Defined.

(** C3, evaluated where it fails. With the counter at 9999 the next call
    moves it to 10000 and returns "INV-1000", not "INV-10000": beyond 9999
    the text is "INV-" and the first four digits of the counter, never
    "INV-" and the whole numeral. The call itself does not fail. *)
Theorem counter_beyond_9999_truncated :
  counter_of db_9999 "org-a" = Some 9999
  ∧ (get_next_invoice_number "org-a" db_9999).1 = Ok (Some "INV-1000")
  ∧ counter_of (get_next_invoice_number "org-a" db_9999).2 "org-a" = Some 10000
  ∧ spec_invoice_number_text 10000 = "INV-10000"
  ∧ (∀ n, 9999 < n →
       invoice_number_text n = "INV-" +:+ substring 0 4 (Pg.int4_to_text n)
       ∧ String.length (invoice_number_text n) = 8%nat
       ∧ invoice_number_text n ≠ "INV-" +:+ Pg.int4_to_text n).
Proof.
  split; [by vm_compute|]. split; [by vm_compute|]. split; [by vm_compute|].
  split; [by vm_compute|].
  intros n Hn. split; [by apply invoice_number_text_truncated|].
  split; [by apply length_invoice_number_text_truncated|].
  by apply invoice_number_text_not_full.
Qed.

(** C1, evaluated where it fails. Of 10000 calls in a row for an
    organization whose counter starts at 0, the 1000th and the 10000th both
    return "INV-1000": the values are neither distinct nor increasing. *)
Theorem ten_thousandth_number_repeats :
  counter_of db0 "org-a" = Some 0
  ∧ (allocate_many (Z.to_nat 10000) "org-a" db0).1 !! Z.to_nat 999
    = Some (Ok (Some "INV-1000"))
  ∧ (allocate_many (Z.to_nat 10000) "org-a" db0).1 !! Z.to_nat 9999
    = Some (Ok (Some "INV-1000"))
  ∧ ¬ NoDup (allocate_many (Z.to_nat 10000) "org-a" db0).1
  ∧ ¬ increasing (allocate_many (Z.to_nat 10000) "org-a" db0).1.
Proof.
  assert (counter_of db0 "org-a" = Some 0) as Hc by reflexivity.
  destruct (allocate_many_counter (Z.to_nat 10000) "org-a" db0 0 Hc)
    as [Hres _].
  { unfold Pg.INT4_MAX. lia. }
  assert ((allocate_many (Z.to_nat 10000) "org-a" db0).1 !! Z.to_nat 999
          = Some (Ok (Some "INV-1000"))) as H1.
  { rewrite Hres, list_lookup_fmap, lookup_seq_lt by lia. by vm_compute. }
  assert ((allocate_many (Z.to_nat 10000) "org-a" db0).1 !! Z.to_nat 9999
          = Some (Ok (Some "INV-1000"))) as H2.
  { rewrite Hres, list_lookup_fmap, lookup_seq_lt by lia. by vm_compute. }
  clear Hres.
  split; [exact Hc|]. split; [exact H1|]. split; [exact H2|].
  assert (Z.to_nat 999 ≠ Z.to_nat 9999) as Hne by lia.
  assert (Z.to_nat 999 < Z.to_nat 9999)%nat as Hlt by lia.
  split.
  - intros Hnd. apply Hne. exact (NoDup_lookup _ _ _ _ Hnd H1 H2).
  - intros Hinc.
    apply (text_lt_irrefl "INV-1000").
    exact (increasing_lookup _ _ _ _ _ Hinc Hlt H1 H2).
Qed.

(** C10, evaluated where it fails. In [db_9999] invoice "inv-1000" carries
    "INV-1000". Two calls of the allocator in a row both return that same
    number while the counter goes 9999, 10000, 10001; and once "inv-1000" is
    deleted, the next invoice created is stored under "INV-1000" again. *)
Theorem allocated_number_handed_out_again :
  (invoice_number <$> invoices db_9999 !! "inv-1000") = Some "INV-1000"
  ∧ (get_next_invoice_number "org-a" db_9999).1 = Ok (Some "INV-1000")
  ∧ counter_of (get_next_invoice_number "org-a" db_9999).2 "org-a" = Some 10000
  ∧ (get_next_invoice_number "org-a"
       (get_next_invoice_number "org-a" db_9999).2).1 = Ok (Some "INV-1000")
  ∧ counter_of (get_next_invoice_number "org-a"
                  (get_next_invoice_number "org-a" db_9999).2).2 "org-a"
    = Some 10001
  ∧ (∃ row,
       (useCreateInvoice alice "inv-10000" jane two_items
          (useDeleteInvoice "inv-1000" db_9999).2).1 = Ok row
       ∧ invoice_number row = "INV-1000").
Proof.
  vm_compute. repeat split; try reflexivity. eexists. split; reflexivity.
Qed.

(** Calls for different organizations do not see each other: in [db0],
    where "org-a" has counter 0 and "org-b" has none yet, both receive
    "INV-0001", and "org-a" goes on with "INV-0002". *)
Lemma two_organizations_both_get_0001 :
  (allocate_trace ["org-a"; "org-b"; "org-a"] db0).1
  = [ ("org-a", Ok (Some "INV-0001")); ("org-b", Ok (Some "INV-0001"));
      ("org-a", Ok (Some "INV-0002")) ].
Proof. by vm_compute. Qed.

End AllocatorClaims.

(** ** The uniqueness constraint as an invariant *)

Section Uniqueness.

Implicit Types (m : gmap string Invoice) (i : Invoice).

Lemma numbers_unique_insert_same m k i i' :
  m !! k = Some i →
  organization_id i' = organization_id i →
  invoice_number i' = invoice_number i →
  numbers_unique m → numbers_unique (<[k := i']> m).
Proof.
  intros Hk Ho Hn Hu k1 k2 i1 i2 H1 H2 Horg Hnum.
  apply lookup_insert_Some in H1 as [[<- <-]|[Hne1 H1]];
    apply lookup_insert_Some in H2 as [[<- <-]|[Hne2 H2]]; try done.
  - apply (Hu k k2 i i2); congruence.
  - apply (Hu k1 k i1 i); congruence.
  - by apply (Hu k1 k2 i1 i2).
Qed.

Lemma numbers_unique_insert_new m g row :
  (∀ k i, m !! k = Some i →
          ¬ (organization_id i = organization_id row
             ∧ invoice_number i = invoice_number row)) →
  numbers_unique m → numbers_unique (<[g := row]> m).
Proof.
  intros Hfree Hu k1 k2 i1 i2 H1 H2 Horg Hnum.
  apply lookup_insert_Some in H1 as [[<- <-]|[Hne1 H1]];
    apply lookup_insert_Some in H2 as [[<- <-]|[Hne2 H2]]; try done.
  - by destruct (Hfree k2 i2 H2).
  - by destruct (Hfree k1 i1 H1).
  - by apply (Hu k1 k2 i1 i2).
Qed.

Lemma numbers_unique_delete m k :
  numbers_unique m → numbers_unique (delete k m).
Proof.
  intros Hu k1 k2 i1 i2 H1 H2.
  apply lookup_delete_Some in H1 as [_ H1].
  apply lookup_delete_Some in H2 as [_ H2].
  by apply Hu.
Qed.

(** X4. Whatever the allocator returns, the table of invoices never holds two
    invoices of one organization with the same number: every operation
    keeps the uniqueness that [UNIQUE(organization_id, invoice_number)]
    enforces at insertion. *)
Theorem invoice_numbers_stay_unique :
  ∀ orgs ops, numbers_unique (invoices (exec (init orgs) ops)).
Proof.
  intros orgs ops.
  apply (exec_invariant (λ d, numbers_unique (invoices d))).
  - intros d o Hcore Hu.
    destruct o as [org|s g inv items|k u items|k s|k| |]; try done; simpl.
    + by rewrite (proj1 (get_next_invoice_number_frame org d)).
    + destruct (useCreateInvoice s g inv items d) as [r d'] eqn:E. simpl.
      apply useCreateInvoice_inv in E
        as [(e & _ & -> & _)
           |(org & uid & num & _ & _ & _ & _ & Htaken & _ & _ & -> & _)];
        [done|].
      apply numbers_unique_insert_new; [|done].
      intros k i Hk. simpl. by apply (number_taken_false d org num k i).
    + destruct (invoices d !! k) as [i|] eqn:Ei.
      * rewrite (useUpdateInvoice_Some _ _ _ _ i) by done. simpl.
        by apply (numbers_unique_insert_same _ _ i).
      * by rewrite useUpdateInvoice_None.
    + destruct (invoices d !! k) as [i|] eqn:Ei.
      * rewrite (useUpdateInvoiceStatus_Some _ _ _ i) by done. simpl.
        by apply (numbers_unique_insert_same _ _ i).
      * by rewrite useUpdateInvoiceStatus_None.
    + by apply numbers_unique_delete.
  - intros k1 k2 i1 i2 H1. simpl in H1. by rewrite lookup_empty in H1.
Qed.

End Uniqueness.

(** ** The invoice tables stay consistent with each other *)

Section Consistency.

Implicit Types (d : Db) (k inv_id : string) (i : Invoice).

Lemma filter_none {A} (P : A → Prop) `{!∀ x, Decision (P x)} (l : list A) :
  Forall (λ x, ¬ P x) l → filter P l = [].
Proof.
  induction 1 as [|x l Hx _ IH]; [done|].
  by rewrite filter_cons_False.
Qed.

Lemma filter_all {A} (P : A → Prop) `{!∀ x, Decision (P x)} (l : list A) :
  Forall P l → filter P l = l.
Proof.
  induction 1 as [|x l Hx _ IH]; [done|].
  rewrite filter_cons_True by done. by rewrite IH.
Qed.

Lemma filter_item_rows_eq k t :
  filter (λ r, invoice_id r = k) (item_rows k t) = item_rows k t.
Proof. apply filter_all, item_rows_invoice_id. Qed.

Lemma filter_item_rows_ne k k' t :
  k ≠ k' → filter (λ r, invoice_id r = k') (item_rows k t) = [].
Proof.
  intros Hne. apply filter_none.
  eapply Forall_impl; [apply item_rows_invoice_id|].
  intros r -> . done.
Qed.

Lemma filter_eq_filter_ne k k' (l : list InvoiceItem) :
  k ≠ k' →
  filter (λ r, invoice_id r = k') (filter (λ r, invoice_id r ≠ k) l)
  = filter (λ r, invoice_id r = k') l.
Proof.
  intros Hne. induction l as [|r l IH]; [done|].
  destruct (decide (invoice_id r = k)) as [Hk|Hk].
  - rewrite (filter_cons_False (λ r, invoice_id r ≠ k)) by (intros ?; done).
    rewrite (filter_cons_False (λ r, invoice_id r = k')) by congruence. done.
  - rewrite (filter_cons_True (λ r, invoice_id r ≠ k)) by done.
    rewrite !filter_cons, IH. done.
Qed.

Lemma filter_eq_filter_ne_same k (l : list InvoiceItem) :
  filter (λ r, invoice_id r = k) (filter (λ r, invoice_id r ≠ k) l) = [].
Proof.
  apply filter_none, Forall_forall.
  intros r [Hr _]%list_elem_of_filter. done.
Qed.

Lemma sumQ_plus {A} (f g : A → Q) (l : list A) :
  (sumQ (map f l) + sumQ (map g l) == sumQ (map (λ x, f x + g x) l))%Q.
Proof. induction l as [|x l IH]; simpl; [ring|]. rewrite <- IH. ring. Qed.

Lemma sumQ_ext {A} (f g : A → Q) (l : list A) :
  (∀ x, f x == g x)%Q → (sumQ (map f l) == sumQ (map g l))%Q.
Proof.
  intros H. induction l as [|x l IH]; simpl; [reflexivity|].
  by rewrite IH, H.
Qed.

(** The totals of the calculator are the sums of the rows it produces. *)
Lemma calculate_totals_rows_sums k items :
  let t := calculate_totals items in
  (acc_subtotal t == rows_subtotal (item_rows k t))%Q
  ∧ (acc_taxAmount t == rows_tax (item_rows k t))%Q
  ∧ (totalAmount t == rows_total (item_rows k t))%Q.
Proof.
  intros t. subst t. unfold rows_subtotal, rows_tax, rows_total, item_rows.
  rewrite calculate_totals_rows, !map_map. simpl.
  split; [|split].
  - apply calculate_totals_subtotal.
  - rewrite calculate_totals_tax. apply sumQ_ext. intros x. unfold line_tax. reflexivity.
  - unfold totalAmount.
    rewrite calculate_totals_subtotal, calculate_totals_tax, sumQ_plus.
    apply sumQ_ext. intros x. unfold line_subtotal, line_tax. field.
Qed.

Lemma is_Some_organizations_step d o org :
  is_Some (organizations d !! org) → is_Some (organizations (step d o) !! org).
Proof.
  intros Hs. destruct (step_organizations d o) as [->|[org' ->]]; [done|].
  destruct (decide (org' = org)) as [->|Hne].
  - unfold get_next_invoice_number, increment_invoice_counter. run_monad.
    destruct Hs as [x Hx]. rewrite Hx.
    destruct (Pg.INT4_MAX <? _); simpl; [by rewrite Hx|].
    by rewrite lookup_insert_eq.
  - by rewrite get_next_invoice_number_other.
Qed.

Lemma is_Some_insert_keep {A} (m : gmap string A) k x k' :
  is_Some (m !! k') → is_Some (<[k := x]> m !! k').
Proof.
  intros [y Hy]. destruct (decide (k = k')) as [->|Hne].
  - rewrite lookup_insert_eq. by eexists.
  - rewrite lookup_insert_ne by done. by eexists.
Qed.

Lemma well_formed_create d s g inv items :
  well_formed d → well_formed (useCreateInvoice s g inv items d).2.
Proof.
  intros (Hri & Hkey & Horg & Hsum).
  assert (map_Forall (λ _ i, is_Some (organizations
              (step d (CreateInvoice s g inv items)) !! organization_id i))
                     (invoices d)) as Horg'.
  { intros k i Hk. apply is_Some_organizations_step. by apply (Horg k i). }
  simpl in Horg'.
  destruct (useCreateInvoice s g inv items d) as [res d'] eqn:E. simpl in *.
  apply useCreateInvoice_inv in E
    as [(e & _ & Hi & Hit)
       |(org & uid & num & _ & _ & Hnum & Hfresh & _ & _ & Ho & Hi & Hit)].
  { unfold well_formed, rows_of. rewrite Hi, Hit. done. }
  assert (filter (λ r, invoice_id r = g) (invoice_items d) = []) as Hg.
  { apply filter_none. eapply Forall_impl; [exact Hri|].
    intros r [x Hx] Heq. rewrite Heq in Hx. congruence. }
  unfold well_formed, rows_of. rewrite Hi, Hit.
  split; [|split; [|split]].
  - apply Forall_app. split.
    + eapply Forall_impl; [exact Hri|]. intros r Hr.
      by apply is_Some_insert_keep.
    + eapply Forall_impl; [apply item_rows_invoice_id|].
      intros r ->. rewrite lookup_insert_eq. by eexists.
  - by apply map_Forall_insert_2.
  - apply map_Forall_insert_2; [|done]. simpl. rewrite Ho.
    unfold get_next_invoice_number, increment_invoice_counter in *.
    run_monad. destruct (organizations d !! org) as [x|] eqn:Ex; [|done].
    destruct (Pg.INT4_MAX <? _); [done|]. simpl.
    rewrite lookup_insert_eq. by eexists.
  - intros k i [[<- <-]|[Hne Hk]]%lookup_insert_Some.
    + rewrite filter_app, Hg, filter_item_rows_eq. simpl.
      destruct (calculate_totals_rows_sums g items) as (H1 & H2 & H3).
      by split; [|split].
    + rewrite filter_app, (filter_item_rows_ne g k) by done.
      rewrite app_nil_r. by apply (Hsum k i).
Qed.

Lemma well_formed_update d k u items :
  well_formed d → well_formed (useUpdateInvoice k u items d).2.
Proof.
  intros (Hri & Hkey & Horg & Hsum).
  destruct (invoices d !! k) as [i|] eqn:Ei.
  2:{ by rewrite useUpdateInvoice_None. }
  rewrite (useUpdateInvoice_Some _ _ _ _ i) by done.
  unfold well_formed, rows_of. simpl.
  split; [|split; [|split]].
  - apply Forall_app. split.
    + apply Forall_filter_keep.
      eapply Forall_impl; [exact Hri|]. intros r Hr.
      by apply is_Some_insert_keep.
    + eapply Forall_impl; [apply item_rows_invoice_id|].
      intros r ->. rewrite lookup_insert_eq. by eexists.
  - apply map_Forall_insert_2; [|done]. simpl. by apply (Hkey k i).
  - apply map_Forall_insert_2; [|done]. simpl. by apply (Horg k i).
  - intros k' i' [[<- <-]|[Hne Hk']]%lookup_insert_Some.
    + rewrite filter_app, filter_eq_filter_ne_same, filter_item_rows_eq. simpl.
      destruct (calculate_totals_rows_sums k items) as (H1 & H2 & H3).
      by split; [|split].
    + rewrite filter_app, filter_eq_filter_ne by done.
      rewrite (filter_item_rows_ne k k') by done.
      rewrite app_nil_r. by apply (Hsum k' i').
Qed.

Lemma well_formed_status d k s :
  well_formed d → well_formed (useUpdateInvoiceStatus k s d).2.
Proof.
  intros (Hri & Hkey & Horg & Hsum).
  destruct (invoices d !! k) as [i|] eqn:Ei.
  2:{ by rewrite useUpdateInvoiceStatus_None. }
  rewrite (useUpdateInvoiceStatus_Some _ _ _ i) by done.
  unfold well_formed, rows_of. simpl.
  split; [|split; [|split]].
  - eapply Forall_impl; [exact Hri|]. intros r Hr.
    by apply is_Some_insert_keep.
  - apply map_Forall_insert_2; [|done]. simpl. by apply (Hkey k i).
  - apply map_Forall_insert_2; [|done]. simpl. by apply (Horg k i).
  - intros k' i' [[<- <-]|[Hne Hk']]%lookup_insert_Some.
    + by apply (Hsum k i).
    + by apply (Hsum k' i').
Qed.

Lemma well_formed_delete d k :
  well_formed d → well_formed (useDeleteInvoice k d).2.
Proof.
  intros (Hri & Hkey & Horg & Hsum).
  unfold well_formed, rows_of. simpl.
  split; [|split; [|split]].
  - apply Forall_forall. intros r [Hne Hr]%list_elem_of_filter.
    rewrite lookup_delete_ne by done.
    rewrite Forall_forall in Hri. by apply Hri.
  - by apply map_Forall_delete.
  - by apply map_Forall_delete.
  - intros k' i' [Hne Hk']%lookup_delete_Some.
    rewrite filter_eq_filter_ne by done. by apply (Hsum k' i').
Qed.

Lemma well_formed_core d o :
  is_core o → well_formed d → well_formed (step d o).
Proof.
  intros Hcore Hwf.
  destruct o as [org|s g inv items|k u items|k s|k| |]; try done; simpl.
  - destruct Hwf as (Hri & Hkey & Horg & Hsum).
    assert (map_Forall (λ _ i, is_Some (organizations
                (step d (AllocateNext org)) !! organization_id i))
                       (invoices d)) as Horg'.
    { intros k i Hk. apply is_Some_organizations_step. by apply (Horg k i). }
    simpl in Horg'.
    destruct (get_next_invoice_number_frame org d) as [Hf1 Hf2].
    unfold well_formed, rows_of. rewrite Hf1, Hf2. done.
  - by apply well_formed_create.
  - by apply well_formed_update.
  - by apply well_formed_status.
  - by apply well_formed_delete.
Qed.


End Consistency.

(** ** Deleting, replacing and creating *)

Section RowsOfOneInvoice.

Implicit Types (d : Db) (k inv_id gen_id : string) (i : Invoice).

Lemma filter_ne_idemp k (l : list InvoiceItem) :
  filter (λ r, invoice_id r ≠ k) (filter (λ r, invoice_id r ≠ k) l)
  = filter (λ r, invoice_id r ≠ k) l.
Proof.
  apply filter_all, Forall_forall. by intros r [? _]%list_elem_of_filter.
Qed.

(** X6. [useDeleteInvoice] never fails and cascades: afterwards the invoice
    and all its item rows are gone, every other invoice and its item rows
    are as before, the organizations are untouched, and deleting the same id
    again (or an id that never existed) changes nothing. *)
Theorem delete_cascades d k :
  (useDeleteInvoice k d).1 = Ok tt
  ∧ invoices (useDeleteInvoice k d).2 !! k = None
  ∧ rows_of k (useDeleteInvoice k d).2 = []
  ∧ (∀ k', k' ≠ k →
       invoices (useDeleteInvoice k d).2 !! k' = invoices d !! k'
       ∧ rows_of k' (useDeleteInvoice k d).2 = rows_of k' d)
  ∧ organizations (useDeleteInvoice k d).2 = organizations d
  ∧ useDeleteInvoice k (useDeleteInvoice k d).2
    = (Ok tt, (useDeleteInvoice k d).2)
  ∧ (invoices d !! k = None → rows_of k d = [] →
     invoices (useDeleteInvoice k d).2 = invoices d
     ∧ invoice_items (useDeleteInvoice k d).2 = invoice_items d).
Proof.
  unfold useDeleteInvoice, rows_of. simpl.
  split; [done|]. split; [apply lookup_delete_eq|].
  split; [apply filter_eq_filter_ne_same|].
  split.
  { intros k' Hne. split; [by apply lookup_delete_ne|].
    by apply filter_eq_filter_ne. }
  split; [done|]. split.
  { f_equal. f_equal; [|apply filter_ne_idemp].
    apply delete_id, lookup_delete_eq. }
  intros Hnone Hrows. split; [by apply delete_id|].
  apply filter_all, Forall_forall. intros r Hr Heq.
  assert (r ∈ filter (λ r, invoice_id r = k) (invoice_items d)) as Hin
    by by apply list_elem_of_filter.
  rewrite Hrows in Hin. by apply elem_of_nil in Hin.
Qed.



(** The conditions under which a creation goes through: the session names
    an organization that exists (with counter [c]) and a user, the counter
    can still be incremented, the generated id is fresh and the next number
    is not yet used in the organization. *)
Lemma useCreateInvoice_Ok_conds s gen_id invoice items d row :
  (useCreateInvoice s gen_id invoice items d).1 = Ok row →
  ∃ org uid c, create_ready s gen_id d org uid c.
Proof.
  intros Hrow.
  destruct (useCreateInvoice s gen_id invoice items d) as [r d'] eqn:E.
  simpl in Hrow. subst r.
  apply useCreateInvoice_inv in E
    as [(e & ? & _)
       |(org & uid & num & Ho & Hu & Hnum & Hfresh & Htaken & _)];
    [done|].
  exists org, uid.
  destruct (counter_of d org) as [c|] eqn:Hc.
  2:{ unfold counter_of in Hc.
      destruct (organizations d !! org) eqn:Eo; [done|].
      by rewrite get_next_invoice_number_None in Hnum. }
  exists c.
  destruct (Z_le_gt_dec (c + 1) Pg.INT4_MAX) as [Hle|Hgt].
  2:{ apply counter_of_inv in Hc as (o & Eo & <-).
      rewrite (get_next_invoice_number_overflow _ _ o) in Hnum; [done..|lia]. }
  destruct (get_next_invoice_number_counter org d c Hc Hle) as [Hres Hcnt].
  rewrite Hres in Hnum. injection Hnum as <-.
  by repeat split.
Qed.

Lemma useCreateInvoice_ready s gen_id invoice items d org uid c :
  create_ready s gen_id d org uid c →
  ∃ row d',
    useCreateInvoice s gen_id invoice items d = (Ok row, d')
    ∧ row = new_row gen_id
              (create_values org uid invoice (Some (invoice_number_text (c + 1)))
                             (calculate_totals items))
              (invoice_number_text (c + 1))
    ∧ invoices d' = <[gen_id := row]> (invoices d)
    ∧ invoice_items d'
      = invoice_items d ++ item_rows gen_id (calculate_totals items)
    ∧ counter_of d' org = Some (c + 1)
    ∧ (∀ org', org' ≠ org → organizations d' !! org' = organizations d !! org').
Proof.
  intros (Ho & Hu & Hc & Hle & Hfresh & Htaken).
  apply counter_of_inv in Hc as (o & Eo & <-).
  unfold useCreateInvoice. rewrite Ho, Hu.
  unfold bind at 1. rewrite (get_next_invoice_number_Some _ _ o) by done.
  unfold format_invoice_number, Pg.coalesce at 1.
  set (d1 := mkDb _ _ _).
  set (v := create_values _ _ _ _ _).
  unfold bind at 1.
  rewrite (insert_invoice_Ok gen_id v d1 (invoice_number_text
             (Pg.coalesce (invoice_counter o) 0 + 1))); try done.
  2:{ unfold d1. simpl. rewrite lookup_insert_eq. by eexists. }
  unfold bind at 1. simpl id.
  rewrite insert_item_rows_ok.
  2:{ simpl. rewrite lookup_insert_eq. by eexists. }
  unfold ret. eexists _, _. split; [done|]. simpl.
  repeat split; try done.
  - unfold counter_of. simpl. by rewrite lookup_insert_eq.
  - intros org' Hne. by rewrite lookup_insert_ne.
Qed.




End RowsOfOneInvoice.

(** ** The password meter *)

Section PasswordMeter.

Import PasswordStrength.

Implicit Types (p q : js_string).

Lemma bump_le b1 b2 n m :
  (b1 = true → b2 = true) → (n ≤ m)%nat → (bump b1 n ≤ bump b2 m)%nat.
Proof.
  intros Hb Hnm. unfold bump.
  destruct b1, b2; try lia. all: by discriminate Hb.
Qed.

Lemma bump_cases b n : bump b n = n ∨ (b = true ∧ bump b n = S n).
Proof. destruct b; [by right|by left]. Qed.

Lemma score_classes p :
  score p
  = (bump (8 <=? length p) 0 + bump (12 <=? length p) 0 + classes p)%nat.
Proof.
  unfold score, classes, bump.
  by destruct (8 <=? length p)%nat, (12 <=? length p)%nat,
    (test is_lower p), (test is_upper p), (test is_digit p), (test is_other p).
Qed.

Lemma one_class c :
  is_lower c = true ∨ is_upper c = true ∨ is_digit c = true
  ∨ is_other c = true.
Proof.
  unfold is_other.
  destruct (is_lower c); [by left|]. destruct (is_upper c); [by right; left|].
  destruct (is_digit c); [by right; right; left|]. by right; right; right.
Qed.

Lemma classes_bounds p : (classes p ≤ 4)%nat ∧ (p ≠ [] → 1 ≤ classes p)%nat.
Proof.
  split.
  - unfold classes, bump.
    by destruct (test is_lower p), (test is_upper p), (test is_digit p),
      (test is_other p); lia.
  - intros Hp. destruct p as [|c p]; [done|].
    unfold classes, test. simpl.
    destruct (one_class c) as [H|[H|[H|H]]]; rewrite H; simpl;
      unfold bump; repeat case_match; lia.
Qed.

Lemma meter_rank p :
  (meter p).1.1 = score p
  ∧ rank (meter p).1.2
    = (if (score p <=? 2)%nat then 0
       else if (score p <=? 4)%nat then 1 else 2)%nat.
Proof.
  unfold meter. destruct (score p <=? 2)%nat; [done|].
  by destruct (score p <=? 4)%nat.
Qed.

(** X10. Typing more never lowers the meter: for any password and any
    characters added in front of it, behind it or inside it, the score does
    not decrease and the label does not get worse. *)
Theorem meter_monotone :
  ∀ p q r,
    (score (p ++ r) ≤ score (p ++ q ++ r))%nat
    ∧ (rank (meter (p ++ r)).1.2 ≤ rank (meter (p ++ q ++ r)).1.2)%nat.
Proof.
  intros p q r.
  assert (score (p ++ r) ≤ score (p ++ q ++ r))%nat as Hs.
  { unfold score.
    assert (length (p ++ r) ≤ length (p ++ q ++ r))%nat as Hlen
      by (rewrite !length_app; lia).
    assert (∀ class, test class (p ++ r) = true →
                     test class (p ++ q ++ r) = true) as Htest.
    { intros class. unfold test. rewrite !existsb_app.
      intros [-> | ->]%orb_true_iff; [done|]. by rewrite !orb_true_r. }
    repeat apply bump_le; try lia; try apply Htest.
    - intros H%Nat.leb_le. apply Nat.leb_le. lia.
    - intros H%Nat.leb_le. apply Nat.leb_le. lia. }
  split; [done|].
  destruct (meter_rank (p ++ r)) as [_ ->].
  destruct (meter_rank (p ++ q ++ r)) as [_ ->].
  repeat case_match; try lia;
    repeat match goal with
           | H : (_ <=? _)%nat = true |- _ => apply Nat.leb_le in H
           | H : (_ <=? _)%nat = false |- _ => apply Nat.leb_gt in H
           end; lia.
Qed.

(** X11. The score is the number of length thresholds reached (8, 12) plus
    the number of character classes used, so it lies between 0 and 6 and is
    at least 1 for a non-empty password. The label is Strong exactly when
    the score is 5 or 6: never below 8 characters, and from 12 characters on
    exactly with three classes or more. Every password the signup form
    accepts scores at least 2, yet may still be Weak. The component renders
    nothing for the empty password, and otherwise lights as many of its six
    bars as the score, in the colour band of its caption. *)
Theorem meter_characterised :
  ∀ p,
    (score p ≤ 6)%nat
    ∧ (p ≠ [] → 1 ≤ score p)%nat
    ∧ ((meter p).1.2 = Strong ↔ 5 ≤ score p)%nat
    ∧ ((length p < 8)%nat → (meter p).1.2 ≠ Strong)
    ∧ ((12 ≤ length p)%nat → ((meter p).1.2 = Strong ↔ 3 ≤ classes p)%nat)
    ∧ (signup_accepts p = true → 2 ≤ score p)%nat
    ∧ (render p = None ↔ p = [])
    ∧ (∀ bars caption l, render p = Some (bars, caption, l) →
         length (filter (λ b, b ≠ "bg-muted") bars) = score p
         ∧ l = (meter p).1.2
         ∧ (l = Weak ↔ caption = "text-destructive")
         ∧ (l = Medium ↔ caption = "text-warning")
         ∧ (l = Strong ↔ caption = "text-success")).
Proof.
  intros p.
  pose proof (score_classes p) as Hsc.
  destruct (classes_bounds p) as [Hc4 Hc1].
  assert ((meter p).1.2 = Strong ↔ 5 ≤ score p)%nat as Hstrong.
  { unfold meter.
    destruct (Nat.leb_spec (score p) 2); [simpl; split; [done|lia]|].
    destruct (Nat.leb_spec (score p) 4); simpl; split; try done; lia. }
  split.
  { rewrite Hsc. unfold bump. repeat case_match; lia. }
  split.
  { intros Hp. specialize (Hc1 Hp). rewrite Hsc. lia. }
  split; [exact Hstrong|].
  split.
  { intros Hlen. rewrite Hstrong, Hsc.
    rewrite (proj2 (Nat.leb_gt 8 (length p))) by lia.
    rewrite (proj2 (Nat.leb_gt 12 (length p))) by lia.
    simpl. lia. }
  split.
  { intros Hlen. rewrite Hstrong, Hsc.
    rewrite (proj2 (Nat.leb_le 8 (length p))) by lia.
    rewrite (proj2 (Nat.leb_le 12 (length p))) by lia.
    simpl. lia. }
  split.
  { unfold signup_accepts. intros Hlen. rewrite Hsc, Hlen. simpl.
    assert (p ≠ []) as Hp.
    { intros ->. simpl in Hlen. discriminate. }
    specialize (Hc1 Hp). unfold bump. case_match; lia. }
  split.
  { destruct p; simpl; [done|]. split; [|done].
    destruct (meter (n :: p)) as [[? ?] ?]. done. }
  intros bars caption l. destruct p as [|c p]; [done|].
  unfold render. cbn iota. set (pw := c :: p) in *.
  assert (score pw ≤ 6)%nat as H6.
  { rewrite Hsc. unfold bump. repeat case_match; lia. }
  unfold meter, caption_class.
  destruct (score pw <=? 2)%nat eqn:E2;
    [|destruct (score pw <=? 4)%nat eqn:E4];
    intros [= <- <- <-]; cbn -[score filter length Nat.leb];
    rewrite ?E2, ?E4;
    (split; [|repeat split; intros; first [congruence|discriminate]]).
  - apply Nat.leb_le in E2.
    destruct (score pw) as [|[|[|?]]]; try lia; by vm_compute.
  - apply Nat.leb_gt in E2. apply Nat.leb_le in E4.
    destruct (score pw) as [|[|[|[|[|?]]]]]; try lia; by vm_compute.
  - apply Nat.leb_gt in E2, E4.
    destruct (score pw) as [|[|[|[|[|[|[|?]]]]]]]; try lia; by vm_compute.
Qed.

(** "aaaaaaaa" is accepted by the signup form and Weak; "Abcdefg1!xyz" is
    Strong with all six bars lit. *)
Lemma password_examples :
  signup_accepts (of_ascii "aaaaaaaa") = true
  ∧ meter (of_ascii "aaaaaaaa") = (2%nat, Weak, "bg-destructive")
  ∧ meter (of_ascii "Abcdefg1!xyz") = (6%nat, Strong, "bg-success")
  ∧ meter [] = (0%nat, Weak, "bg-destructive").
Proof. by vm_compute. Qed.

End PasswordMeter.

(** ** The dashboard statistics *)

Section DashboardStats.

Import Dashboard.

Implicit Types (l : list Invoice) (i : Invoice).

Lemma sumQ_app (l1 l2 : list Q) :
  (sumQ (l1 ++ l2) == sumQ l1 + sumQ l2)%Q.
Proof. induction l1 as [|x l1 IH]; simpl; [ring|]. rewrite IH. ring. Qed.

Lemma fold_add_total l a :
  (fold_left add_total l a == a + sumQ (map total_amount l))%Q.
Proof.
  revert a. induction l as [|i l IH]; intros a; simpl; [ring|].
  rewrite IH. unfold add_total. ring.
Qed.

Lemma sumQ_Permutation (l1 l2 : list Q) :
  l1 ≡ₚ l2 → (sumQ l1 == sumQ l2)%Q.
Proof.
  induction 1 as [|x l1 l2 _ IH|x y l|l1 l2 l3 _ IH1 _ IH2]; simpl.
  - reflexivity.
  - by rewrite IH.
  - ring.
  - by rewrite IH1.
Qed.

Lemma totalRevenue_where l :
  (totalRevenue l == total_where (λ i, status i = paid) l)%Q.
Proof.
  unfold totalRevenue, total_where. rewrite fold_add_total.
  rewrite (list_filter_iff (λ inv, status_name (status inv) = "paid")
                           (λ i, status i = paid)).
  - ring.
  - intros i. destruct (status i); simpl; split; congruence.
Qed.

Lemma outstanding_where l :
  (outstanding l
   == total_where (λ i, status i = sent ∨ status i = overdue) l)%Q.
Proof.
  unfold outstanding, total_where. rewrite fold_add_total.
  rewrite (list_filter_iff
             (λ inv, status_name (status inv) ∈ ["sent"; "pending"; "overdue"])
             (λ i, status i = sent ∨ status i = overdue)).
  - ring.
  - intros i. rewrite !elem_of_cons, elem_of_nil.
    destruct (status i); simpl; split; intros H;
      repeat destruct H as [H|H]; try done; auto.
Qed.

Lemma total_where_app P `{!∀ i, Decision (P i)} l1 l2 :
  (total_where P (l1 ++ l2) == total_where P l1 + total_where P l2)%Q.
Proof.
  unfold total_where. by rewrite filter_app, map_app, sumQ_app.
Qed.

Lemma total_where_cons P `{!∀ i, Decision (P i)} i l :
  (total_where P (i :: l)
   == (if decide (P i) then total_amount i else 0) + total_where P l)%Q.
Proof.
  unfold total_where. rewrite filter_cons.
  destruct (decide (P i)); simpl; ring.
Qed.



(** The list of the contract's example: paid 100, draft 50, paid 25. *)
Lemma dashboard_example :
  (totalRevenue [ set_status paid (mk_total 100); set_status draft (mk_total 50);
                  set_status paid (mk_total 25) ] == 125)%Q
  ∧ (outstanding [ set_status sent (mk_total 40); set_status overdue (mk_total 2);
                   set_status cancelled (mk_total 7) ] == 42)%Q.
Proof. by vm_compute. Qed.

End DashboardStats.

(** ** Signing up *)

Section Signup.

Import Auth.

Implicit Types (st : State) (NEW : AuthUser).

Lemma is_org_member_app u o (l : list UserRole) r d p :
  is_org_member u o (mkState d p (l ++ [r])) = true
  ↔ is_org_member u o (mkState d p l) = true
    ∨ (role_user_id r = u ∧ role_organization_id r = o).
Proof.
  unfold is_org_member. simpl. rewrite !bool_decide_eq_true, Exists_app.
  rewrite Exists_cons, Exists_nil. intuition.
Qed.

Lemma number_taken_no_invoice d org num :
  (∀ k i, invoices d !! k = Some i → organization_id i ≠ org) →
  number_taken d org num = false.
Proof.
  intros H. unfold number_taken. apply bool_decide_eq_false.
  intros (k & i & Hk & Ho & _). by apply (H k i).
Qed.



(** X22. The insert policies of [user_roles] accept a row whose user is the
    caller, whatever organization and role it names: a user who is no member
    of an existing organization can add themself as its owner, and the
    invoice policies, which let through none of that organization's invoices
    before, let them all through afterwards. A row for somebody else is
    refused unless the caller owns the organization. *)
Theorem own_role_insert_policy st u org :
  is_Some (organizations (db st) !! org) →
  is_org_member u org st = false →
  ∃ st',
    insert_user_role (Some u) (mkUserRole u org owner) st
    = Permitted (Ok tt, st')
    ∧ db st' = db st
    ∧ has_org_role u org owner st' = true
    ∧ (∀ i, organization_id i = org →
            invoices_policy (Some u) i st = false
            ∧ invoices_policy (Some u) i st' = true)
    ∧ (∀ v r, v ≠ u →
              insert_user_role (Some u) (mkUserRole v org r) st = Denied).
Proof.
  intros [o Ho] Hmem.
  assert (∀ r, has_org_role u org r st = false) as Hrole.
  { intros r. apply bool_decide_eq_false. intros H.
    apply bool_decide_eq_false in Hmem. apply Hmem.
    eapply Exists_impl; [exact H|]. by intros x (? & ? & _). }
  unfold insert_user_role, user_roles_insert_check. cbn.
  rewrite Hrole, Hmem, Ho, bool_decide_eq_true_2 by done. cbn.
  eexists. split; [done|]. cbn. split; [done|]. split.
  { apply bool_decide_eq_true, Exists_app. right. by constructor. }
  split.
  - intros i ->. unfold invoices_policy. split; [done|].
    destruct st as [d p l]. by apply is_org_member_app; right.
  - intros v r Hv. by rewrite bool_decide_eq_false_2.
Qed.

(** Jane, who has just signed up, makes herself an owner of Acme. *)
Lemma own_role_insert_policy_witness :
  ∃ st',
    insert_user_role (Some "user-9") (mkUserRole "user-9" "org-a" owner)
                     signed_up = Permitted (Ok tt, st')
    ∧ has_org_role "user-9" "org-a" owner st' = true.
Proof.
  destruct (own_role_insert_policy signed_up "user-9" "org-a")
    as (st' & H & _ & Hr & _).
  - vm_compute. by eexists.
  - reflexivity.
  - exists st'. split; [exact H|exact Hr].
Defined.

End Signup.

(** ** Organization settings and the defaults of an invoice *)

Section Settings.

Implicit Types (d : Db) (o : Organization) (data : OrgForm.t).

Lemma or_null_Some x s : or_null x = Some s ↔ x = Some s ∧ s ≠ "".
Proof.
  destruct x as [[|a x]|]; simpl; split; try (intros [[=] ?]; done);
    try done.
  - intros [= <-]. done.
  - by intros [[= <-] _].
Qed.

Lemma or_null_idemp x : or_null (or_null x) = or_null x.
Proof. by destruct x as [[|? ?]|]. Qed.

Lemma useOrganization_inv p d org_id o :
  useOrganization p d = Ok (Some (org_id, o)) →
  organizations d !! org_id = Some o.
Proof.
  unfold useOrganization. destruct (or_null p) as [org|]; [|done].
  destruct (organizations d !! org) as [o'|] eqn:E; [|done].
  by intros [= <- <-].
Qed.

Lemma printed_js_or x b :
  or_null x = x →
  InvoicePDF.printed (js_or x b)
  = match x with
    | Some n => Some n
    | None => or_null b
    end.
Proof. by destruct x as [[|? ?]|]. Qed.

Lemma onOrgSubmit_Some d org_id o loaded data :
  organizations d !! org_id = Some o →
  (onOrgSubmit (Some (org_id, loaded)) data d).2
  = mkDb (<[org_id :=
             mkOrganization (OrgForm.name data)
               (default (invoice_additional_info o)
                        (Some <$> OrgForm.invoice_additional_info data))
               (default (invoice_terms o)
                        (Some <$> OrgForm.invoice_terms data))
               (invoice_counter o)]> (organizations d))
         (invoices d) (invoice_items d).
Proof.
  intros Ho. unfold onOrgSubmit, try_catch, useUpdateOrganization.
  by rewrite Ho.
Qed.

Lemma onOrgSubmit_frame loaded data d :
  invoices (onOrgSubmit loaded data d).2 = invoices d
  ∧ invoice_items (onOrgSubmit loaded data d).2 = invoice_items d
  ∧ ∀ org, counter_of (onOrgSubmit loaded data d).2 org = counter_of d org.
Proof.
  destruct loaded as [[org_id loaded]|]; [|done].
  unfold onOrgSubmit, try_catch, useUpdateOrganization. simpl.
  destruct (organizations d !! org_id) as [o|] eqn:Ho; [|done]. simpl.
  split; [done|]. split; [done|].
  intros org. unfold counter_of. simpl.
  destruct (decide (org = org_id)) as [->|Hne].
  - by rewrite lookup_insert_eq, Ho.
  - by rewrite lookup_insert_ne.
Qed.

Lemma get_next_invoice_number_counter_of org d1 d2 :
  counter_of d1 org = counter_of d2 org →
  (get_next_invoice_number org d1).1 = (get_next_invoice_number org d2).1.
Proof.
  unfold counter_of, get_next_invoice_number, increment_invoice_counter.
  run_monad.
  destruct (organizations d1 !! org) as [o1|], (organizations d2 !! org) as [o2|];
    simpl; intros [=]; [|done].
  rewrite H0. by destruct (Pg.INT4_MAX <? _).
Qed.

(** What [useCreateInvoice] returns is decided by the invoices on file and
    the counters. *)
Lemma useCreateInvoice_result_ext s gen_id invoice items d1 d2 :
  invoices d1 = invoices d2 →
  (∀ org, counter_of d1 org = counter_of d2 org) →
  (useCreateInvoice s gen_id invoice items d1).1
  = (useCreateInvoice s gen_id invoice items d2).1.
Proof.
  intros Hi Hc. unfold useCreateInvoice.
  destruct (or_null (current_organization_id s)) as [org|]; [|done].
  destruct (or_null (user_id s)) as [uid|]; [|done].
  specialize (Hc org). unfold counter_of in Hc.
  unfold bind, ret.
  destruct (organizations d1 !! org) as [o1|] eqn:E1,
           (organizations d2 !! org) as [o2|] eqn:E2; try done.
  2:{ by rewrite !get_next_invoice_number_None by done. }
  cbv [fmap option_fmap option_map] in Hc. injection Hc as Hc.
  destruct (Z_le_gt_dec (Pg.coalesce (invoice_counter o1) 0 + 1) Pg.INT4_MAX)
    as [Hle|Hgt].
  2:{ rewrite (get_next_invoice_number_overflow _ _ o1); [|done|lia].
      rewrite (get_next_invoice_number_overflow _ _ o2); [done|done|lia]. }
  rewrite (get_next_invoice_number_Some _ _ o1) by done.
  rewrite (get_next_invoice_number_Some _ _ o2); [|done|lia].
  rewrite <- Hc, Hi.
  unfold insert_invoice, insert_invoice_items, number_taken.
  simpl. rewrite !lookup_insert_eq.
  repeat (case_match; simplify_eq/=; try done).
Qed.

(** X15. Saving the organization settings, with whatever the form holds,
    changes no invoice, no item row and no counter: every organization is
    handed the same next invoice number as before the save, and a creation
    gives the same result, invoice or error, as it would have without the
    save. *)
Theorem settings_save_keeps_numbering loaded data d :
  invoices (onOrgSubmit loaded data d).2 = invoices d
  ∧ invoice_items (onOrgSubmit loaded data d).2 = invoice_items d
  ∧ (∀ org, (get_next_invoice_number org (onOrgSubmit loaded data d).2).1
            = (get_next_invoice_number org d).1)
  ∧ (∀ s gen_id invoice items,
       (useCreateInvoice s gen_id invoice items (onOrgSubmit loaded data d).2).1
       = (useCreateInvoice s gen_id invoice items d).1).
Proof.
  destruct (onOrgSubmit_frame loaded data d) as (Hi & Hit & Hc).
  split; [done|]. split; [done|]. split.
  - intros org. by apply get_next_invoice_number_counter_of.
  - intros s gen_id invoice items. by apply useCreateInvoice_result_ext.
Qed.

(** X16. Saving the settings form as it was filled from what
    [useOrganization] loaded keeps the name and the counter and turns absent
    default notes and terms into empty texts; what the create page prefills
    and what an invoice prints for notes and terms are the same as before
    the save. *)
Theorem settings_round_trip p d org_id o :
  useOrganization p d = Ok (Some (org_id, o)) →
  ∃ o',
    organizations (onOrgSubmit (Some (org_id, o)) (org_form_values o) d).2
      !! org_id = Some o'
    ∧ org_name o' = org_name o
    ∧ invoice_counter o' = invoice_counter o
    ∧ invoice_additional_info o'
      = Some (default "" (or_null (invoice_additional_info o)))
    ∧ invoice_terms o' = Some (default "" (or_null (invoice_terms o)))
    ∧ (∀ form, organization_effect (Some o') form
               = organization_effect (Some o) form)
    ∧ (∀ invoice,
         InvoicePDF.printed (InvoicePDF.displayNotes invoice o')
         = InvoicePDF.printed (InvoicePDF.displayNotes invoice o)
         ∧ InvoicePDF.printed (InvoicePDF.displayTerms invoice o')
           = InvoicePDF.printed (InvoicePDF.displayTerms invoice o)).
Proof.
  intros Ho%useOrganization_inv.
  rewrite (onOrgSubmit_Some d org_id o o) by done. simpl.
  rewrite lookup_insert_eq. eexists. split; [done|]. simpl.
  destruct o as [n info trm c]. simpl.
  split; [done|]. split; [done|].
  split; [by destruct info as [[|? ?]|]|].
  split; [by destruct trm as [[|? ?]|]|].
  split.
  - intros form. unfold organization_effect. simpl.
    by destruct info as [[|? ?]|], trm as [[|? ?]|].
  - intros invoice.
    unfold InvoicePDF.printed, InvoicePDF.displayNotes, InvoicePDF.displayTerms.
    simpl. split.
    + destruct (notes invoice) as [[|? ?]|]; try done;
        by destruct info as [[|? ?]|].
    + destruct (terms invoice) as [[|? ?]|]; try done;
        by destruct trm as [[|? ?]|].
Qed.

Lemma settings_round_trip_witness :
  ∃ o',
    organizations (onOrgSubmit (Some ("org-i", initech))
                     (org_form_values initech)
                     (mkDb (<["org-i" := initech]> ∅) ∅ [])).2
      !! "org-i" = Some o'
    ∧ invoice_additional_info o' = Some ""
    ∧ invoice_terms o' = Some "Net 30".
Proof.
  destruct (settings_round_trip (Some "org-i")
              (mkDb (<["org-i" := initech]> ∅) ∅ []) "org-i" initech)
    as (o' & H & _ & _ & Hi & Ht & _).
  - reflexivity.
  - exists o'. split; [exact H|]. split; [exact Hi|exact Ht].
Defined.

(** The row a submission of the create form leaves under a fresh id. *)
Lemma CreateInvoice_onSubmit_row s gen_id form action d row :
  invoices d !! gen_id = None →
  invoices (CreateInvoice_onSubmit s gen_id form action d).2 !! gen_id
  = Some row →
  ∃ org uid num,
    row = set_status (match action with save => draft | send => sent end)
            (new_row gen_id
               (create_values org uid (create_args form) (Some num)
                  (calculate_totals (form_items false (Form.items form))))
               num).
Proof.
  intros Hfresh Hrow.
  change (CreateInvoice_onSubmit s gen_id form action d).2
    with (step d (SubmitCreate s gen_id form action)) in Hrow.
  destruct action.
  - rewrite step_SubmitCreate_save in Hrow. simpl in Hrow.
    destruct (useCreateInvoice s gen_id (create_args form)
                (form_items false (Form.items form)) d) as [r d1] eqn:E.
    apply useCreateInvoice_inv in E
      as [(e & _ & Hi & _)|(org & uid & num & _ & _ & _ & _ & _ & _ & _ & Hi & _)];
      simpl in Hrow; rewrite Hi in Hrow.
    + by rewrite Hfresh in Hrow.
    + rewrite lookup_insert_eq in Hrow. injection Hrow as <-.
      by exists org, uid, num.
  - rewrite step_SubmitCreate_send in Hrow.
    destruct (useCreateInvoice s gen_id (create_args form)
                (form_items false (Form.items form)) d) as [r d1] eqn:E.
    apply useCreateInvoice_inv in E
      as [(e & -> & Hi & _)|(org & uid & num & _ & _ & _ & _ & _ & -> & _ & Hi & _)].
    + rewrite Hi in Hrow. by rewrite Hfresh in Hrow.
    + simpl in Hrow.
      rewrite (useUpdateInvoiceStatus_Some gen_id sent d1
                 (new_row gen_id
                    (create_values org uid (create_args form) (Some num)
                       (calculate_totals (form_items false (Form.items form))))
                    num)) in Hrow
        by (rewrite Hi; apply lookup_insert_eq).
      simpl in Hrow. rewrite lookup_insert_eq in Hrow. injection Hrow as <-.
      by exists org, uid, num.
Qed.

(** X17. The notes and terms of a new invoice are copies: when the create
    form is submitted as the organization's defaults prefilled it, the
    stored notes are the organization's default notes if it has any, else
    what the form held, and likewise the terms; a later save of the
    settings does not touch the stored invoice, whose own notes are what
    gets printed. Only an invoice stored without notes prints the
    organization's current default. *)
Theorem defaults_copied_on_create s gen_id form action d o row :
  invoices d !! gen_id = None →
  invoices (CreateInvoice_onSubmit s gen_id
              (organization_effect (Some o) form) action d).2 !! gen_id
  = Some row →
  notes row = or_null (js_or (invoice_additional_info o) (Form.notes form))
  ∧ terms row = or_null (js_or (invoice_terms o) (Form.terms form))
  ∧ (∀ loaded data,
       invoices (onOrgSubmit loaded data
                   (CreateInvoice_onSubmit s gen_id
                      (organization_effect (Some o) form) action d).2).2
         !! gen_id = Some row)
  ∧ (∀ o', InvoicePDF.printed (InvoicePDF.displayNotes row o')
           = match notes row with
             | Some n => Some n
             | None => or_null (invoice_additional_info o')
             end).
Proof.
  intros Hfresh Hrow.
  destruct (CreateInvoice_onSubmit_row _ _ _ _ _ _ Hfresh Hrow)
    as (org & uid & num & ->).
  split; [|split; [|split]].
  - simpl. unfold js_or. destruct (or_null (invoice_additional_info o)) eqn:E.
    + apply or_null_Some in E as [_ E]. by destruct s0.
    + done.
  - simpl. unfold js_or. destruct (or_null (invoice_terms o)) eqn:E.
    + apply or_null_Some in E as [_ E]. by destruct s0.
    + done.
  - intros loaded data.
    destruct (onOrgSubmit_frame loaded data
                (CreateInvoice_onSubmit s gen_id
                   (organization_effect (Some o) form) action d).2) as [-> _].
    done.
  - intros o'. apply printed_js_or. simpl. apply or_null_idemp.
Qed.

(** Initech's default terms end up on a new invoice; there are no default
    notes, and the form's empty notes are stored as none. *)
Lemma defaults_copied_on_create_witness :
  ∃ row,
    invoices (CreateInvoice_onSubmit alice "inv-1"
                (organization_effect (Some initech) edit_form) save db0).2
      !! "inv-1" = Some row
    ∧ notes row = None ∧ terms row = Some "Net 30".
Proof.
  eexists. split; [vm_compute; reflexivity|].
  destruct (defaults_copied_on_create alice "inv-1" edit_form save db0 initech
              _ eq_refl ltac:(vm_compute; reflexivity)) as (Hn & Ht & _).
  split; [exact Hn|exact Ht].
Defined.

End Settings.

(** ** Opening an invoice in the edit page and saving it *)

Section EditRoundTrip.

Implicit Types (d : Db) (i : Invoice) (loaded : InvoiceDetail).

Lemma rows_total_split (rows : list InvoiceItem) :
  Forall line_amount_ok rows →
  (rows_total rows == rows_subtotal rows + rows_tax rows)%Q.
Proof.
  unfold rows_total, rows_subtotal, rows_tax.
  induction 1 as [|r rows Hr _ IH]; simpl; [ring|].
  unfold line_amount_ok in Hr. rewrite IH, Hr. field.
Qed.

Lemma rows_sums_Permutation (l1 l2 : list InvoiceItem) :
  l1 ≡ₚ l2 →
  (rows_subtotal l1 == rows_subtotal l2)%Q
  ∧ (rows_tax l1 == rows_tax l2)%Q
  ∧ (rows_total l1 == rows_total l2)%Q.
Proof.
  intros H. unfold rows_subtotal, rows_tax, rows_total.
  repeat split; apply sumQ_Permutation; by apply Permutation_map.
Qed.

Lemma useInvoiceDetail_loaded d k i customers :
  k ≠ "" → invoices d !! k = Some i →
  useInvoiceDetail k customers d
  = Ok (Some (mkInvoiceDetail i customers (rows_of k d))).
Proof.
  intros Hk Hi. unfold useInvoiceDetail. rewrite Hi.
  by destruct k.
Qed.



End EditRoundTrip.

(** ** What the buttons of the pages can do to a status *)

Section Buttons.

Implicit Types (d : Db) (i : Invoice) (b : button).

Lemma click_status d k view r b :
  id view = k → invoices d !! k = Some r → b ≠ ListDelete →
  (click view b d).2 = d
  ∨ ∃ s, (click view b d).2
         = mkDb (organizations d) (<[k := set_status s r]> (invoices d))
                (invoice_items d)
         ∧ rendered view b = true
         ∧ s = match b with DetailMarkAsSent => sent | _ => paid end.
Proof.
  intros Hid Hr Hb. unfold click.
  destruct (rendered view b) eqn:E; [|by left].
  right. destruct b; try done;
    [exists sent|exists paid|exists paid];
    unfold InvoiceDetailPage.handleMarkAsSent,
      InvoiceDetailPage.handleMarkAsPaid, InvoicesPage.handleMarkAsPaid,
      try_catch; cbn [snd];
    by rewrite Hid, (useUpdateInvoiceStatus_Some k _ d r Hr).
Qed.

(** X19. The status buttons, on a page that shows the invoice as stored:
    they change nothing but the status; none of them is there for a paid
    invoice; "Mark as Sent" is there for a draft only; a cancelled invoice
    has no button on the detail page, but "Mark as Paid" of the list page
    makes it paid, and "Delete" removes an invoice of any status. The check
    is made on the copy the page shows: a page still showing a draft marks
    as sent an invoice that has meanwhile been paid. *)
Theorem status_buttons d k i :
  invoices d !! k = Some i → id i = k →
  (∀ b, b ≠ ListDelete →
        ∃ i', invoices (click i b d).2 !! k = Some i'
              ∧ i' = set_status (status i') i
              ∧ invoice_items (click i b d).2 = invoice_items d
              ∧ (status i' = status i
                 ∨ (b = DetailMarkAsSent ∧ status i = draft ∧ status i' = sent)
                 ∨ (b ≠ DetailMarkAsSent ∧ status i ≠ paid ∧ status i' = paid)))
  ∧ (status i = paid → ∀ b, b ≠ ListDelete → (click i b d).2 = d)
  ∧ (status i = cancelled →
     (click i DetailMarkAsSent d).2 = d
     ∧ (click i DetailMarkAsPaid d).2 = d
     ∧ status <$> invoices (click i ListMarkAsPaid d).2 !! k = Some paid)
  ∧ invoices (click i ListDelete d).2 !! k = None
  ∧ (∀ view, id view = k → status view = draft →
             status <$> invoices (click view DetailMarkAsSent d).2 !! k
             = Some sent).
Proof.
  intros Hi Hid. split; [|split; [|split; [|split]]].
  - intros b Hb.
    destruct (click_status d k i i b Hid Hi Hb) as [->|(s & -> & Hr & ->)].
    + exists i. split; [done|]. split; [by destruct i|]. split; [done|]. by left.
    + eexists. cbn [invoices invoice_items]. rewrite lookup_insert_eq.
      split; [done|]. split; [done|]. split; [done|].
      destruct b; try done; cbn in Hr.
      * right. left. by apply bool_decide_eq_true in Hr.
      * right. right. apply andb_true_iff in Hr as [Hr _].
        by apply bool_decide_eq_true in Hr.
      * right. right. by apply bool_decide_eq_true in Hr.
  - intros Hs b Hb. unfold click.
    assert (rendered i b = false) as ->; [|done].
    destruct b; try done; unfold rendered; by rewrite Hs.
  - intros Hs. unfold click.
    assert (rendered i DetailMarkAsSent = false) as ->
      by (unfold rendered; by rewrite Hs).
    assert (rendered i DetailMarkAsPaid = false) as ->
      by (unfold rendered; by rewrite Hs).
    assert (rendered i ListMarkAsPaid = true) as ->
      by (unfold rendered; by rewrite Hs).
    split; [done|]. split; [done|].
    unfold InvoicesPage.handleMarkAsPaid, try_catch. cbn [snd].
    rewrite Hid, (useUpdateInvoiceStatus_Some k _ d i Hi). cbn [snd invoices].
    by rewrite lookup_insert_eq.
  - unfold click, rendered, InvoicesPage.handleDelete, try_catch,
      useDeleteInvoice. cbn [snd invoices]. rewrite Hid.
    apply lookup_delete_eq.
  - intros view Hv Hs. unfold click.
    assert (rendered view DetailMarkAsSent = true) as ->
      by (unfold rendered; by rewrite Hs).
    unfold InvoiceDetailPage.handleMarkAsSent, try_catch. cbn [snd].
    rewrite Hv, (useUpdateInvoiceStatus_Some k _ d i Hi). cbn [snd invoices].
    by rewrite lookup_insert_eq.
Qed.

(** In [db_paid] invoice "inv-1" is paid; the detail page that still shows
    it as the draft [row1] marks it as sent. *)
Lemma status_buttons_witness :
  status <$> invoices db_paid !! "inv-1" = Some paid
  ∧ status <$> invoices (click row1 DetailMarkAsSent db_paid).2 !! "inv-1"
    = Some sent.
Proof.
  split; [vm_compute; reflexivity|].
  destruct (status_buttons db_paid "inv-1" (set_status paid row1))
    as (_ & _ & _ & _ & H).
  - vm_compute. reflexivity.
  - reflexivity.
  - apply (H row1); reflexivity.
Defined.

End Buttons.

(** ** The dashboard of an organization and the printed invoice *)

Section DashboardOfDb.

Import Dashboard.

Implicit Types (d : Db) (i : Invoice).

Lemma total_where_Permutation P `{!∀ i, Decision (P i)} l1 l2 :
  l1 ≡ₚ l2 → (total_where P l1 == total_where P l2)%Q.
Proof.
  intros Hp. unfold total_where. apply sumQ_Permutation.
  apply Permutation_map. by rewrite Hp.
Qed.

(** The rows of the table with the one under [k] put first. *)
Lemma rows_with_first (m : gmap string Invoice) k i :
  m !! k = Some i →
  snd <$> map_to_list m ≡ₚ i :: (snd <$> map_to_list (delete k m)).
Proof.
  intros H. by rewrite <- (map_to_list_delete m k i H).
Qed.

Lemma useInvoices_update p org d k i i' :
  or_null p = Some org →
  invoices d !! k = Some i →
  organization_id i' = organization_id i →
  ∃ rest,
    useInvoices p d
    ≡ₚ (if decide (organization_id i = org) then [i] else []) ++ rest
    ∧ useInvoices p (mkDb (organizations d) (<[k := i']> (invoices d))
                          (invoice_items d))
      ≡ₚ (if decide (organization_id i = org) then [i'] else []) ++ rest.
Proof.
  intros Hp Hk Ho. unfold useInvoices. rewrite Hp. cbn [invoices].
  exists (filter (λ i, organization_id i = org)
                 (snd <$> map_to_list (delete k (invoices d)))).
  split.
  - rewrite (rows_with_first _ k i Hk), filter_cons.
    by destruct (decide (organization_id i = org)).
  - rewrite (rows_with_first (<[k := i']> (invoices d)) k i')
      by apply lookup_insert_eq.
    rewrite delete_insert_eq, filter_cons, Ho.
    by destruct (decide (organization_id i = org)).
Qed.



(** The invariant behind the discount line: no operation writes a
    discount. *)
Lemma discount_zero_step d o :
  map_Forall (λ _ i, discount_amount i = 0%Q) (invoices d) →
  map_Forall (λ _ i, discount_amount i = 0%Q) (invoices (step d o)).
Proof. by apply (step_invoices_Forall (λ _ i, discount_amount i = 0%Q)). Qed.

(** X21. What the printed invoice shows. No invoice the operations can
    produce prints a discount line. The customer name printed from the
    detail page is the name stored on the invoice when there is one,
    whatever the linked customer is called now; else the linked customer's
    name; else "Walk-in Customer"; it is never empty. *)
Theorem printed_invoice :
  (∀ orgs ops,
     map_Forall (λ _ i, InvoicePDF.discount_row i = false)
                (invoices (exec (init orgs) ops)))
  ∧ (∀ i customers_name,
       InvoicePDF.displayCustomerName
         (InvoiceDetail_customerName i customers_name) i customers_name
       = Some (js_or_text (js_or (customer_name i) customers_name)
                          "Walk-in Customer"))
  ∧ (∀ customerName i customers_name,
       ∃ n, InvoicePDF.displayCustomerName customerName i customers_name
            = Some n ∧ n ≠ "").
Proof.
  split; [|split].
  - intros orgs ops.
    eapply map_Forall_impl.
    + apply (exec_invariant
               (λ d, map_Forall (λ _ i, discount_amount i = 0%Q) (invoices d))).
      * intros d o _. apply discount_zero_step.
      * apply map_Forall_empty.
    + intros k i Hi. unfold InvoicePDF.discount_row. simpl in Hi.
      by rewrite Hi.
  - intros i cn. unfold InvoicePDF.displayCustomerName,
      InvoiceDetail_customerName, js_or_text, js_or.
    by destruct (customer_name i) as [[|? ?]|], cn as [[|? ?]|].
  - intros c i cn. unfold InvoicePDF.displayCustomerName, js_or.
    destruct c as [[|? ?]|], (customer_name i) as [[|? ?]|], cn as [[|? ?]|];
      simpl; by eexists.
Qed.

End DashboardOfDb.
